(** * Nine Realities netcode: client prediction, reliable delivery, time sync

    A shallow embedding of the three JavaScript example classes of the
    repository -- [ClientPrediction], [NetworkProtocol] and [TimeSync] --
    together with the properties their specification states about them.

    JavaScript numbers that take part in floating-point arithmetic
    (positions, velocities, offsets, round-trip times) are IEEE 754 binary64
    values, modelled by Rocq's primitive floats with the same rounding.
    Counters, ticks, sequence ids and millisecond timestamps that are only
    incremented, subtracted and compared are modelled by [Z], which is what
    the code computes as long as they stay within the exactly counted
    integers (absolute value at most 2^53).  Every read of
    [Date.now()] is an explicit argument of the operation that performs it. *)

From Stdlib Require Import ZArith List Bool Lia Sorted Permutation.
From Stdlib Require Import Floats.
Import ListNotations.

Set Warnings "-inexact-float".

(** ** JavaScript number helpers *)

Module JS.

Open Scope float_scope.

(** [Math.min(a, b)]: NaN if either argument is NaN, and -0 is smaller
    than +0. *)
Definition Math_min (a b : float) : float :=
  if is_nan a || is_nan b then nan
  else if a <? b then a
  else if b <? a then b
  else if is_zero a && get_sign a then a
  else b.

(** [Math.abs] and [Math.sqrt]. *)
Definition Math_abs (a : float) : float := abs a.
Definition Math_sqrt (a : float) : float := sqrt a.

(** [a > b] on numbers (false as soon as one side is NaN). *)
Definition gt (a b : float) : bool := b <? a.

(** [a === 0] on numbers: true for +0 and -0, false for NaN. *)
Definition is_zero_number (a : float) : bool := a =? 0.

(** [v || d] for a possibly missing numeric option: the default is taken
    when the value is undefined, 0, -0 or NaN. *)
Definition or_default (v : option float) (d : float) : float :=
  match v with
  | None => d
  | Some f => if is_zero f || is_nan f then d else f
  end.

End JS.

(** ** ClientPrediction (client-side prediction with rollback) *)

Module ClientPrediction.

Import JS.
Open Scope float_scope.

(** User input, [{ moveX, moveY }]. *)
Record Input := mkInput { moveX : float; moveY : float }.

(** A physics state object.  The predicted state is created without a
    [tick] property, server snapshots carry one; object spread copies
    whatever is there, so [tick] is optional. *)
Record State := mkState {
  x : float;
  y : float;
  velocityX : float;
  velocityY : float;
  tick : option Z
}.

(** An input buffer entry, [{ tick, input, timestamp }]. *)
Record Buffered := mkBuffered {
  b_tick : Z;
  b_input : Input;
  b_timestamp : Z
}.

(** The message handed to [sendToServer],
    [{ type: 'input', tick, input, timestamp }]. *)
Record ServerMessage := mkServerMessage {
  m_tick : Z;
  m_input : Input;
  m_timestamp : Z
}.

(** The fields of a [ClientPrediction] instance; [sent] is the trace of
    the messages passed to [sendToServer]. *)
Record Client := mkClient {
  predictedState : State;
  serverState : State;
  inputBuffer : list Buffered;
  clientTick : Z;
  rtt : Z;
  reconciliationThreshold : float;
  sent : list ServerMessage
}.

Definition set_predictedState (c : Client) (s : State) : Client :=
  mkClient s (serverState c) (inputBuffer c) (clientTick c) (rtt c)
           (reconciliationThreshold c) (sent c).

Definition set_serverState (c : Client) (s : State) : Client :=
  mkClient (predictedState c) s (inputBuffer c) (clientTick c) (rtt c)
           (reconciliationThreshold c) (sent c).

Definition set_inputBuffer (c : Client) (b : list Buffered) : Client :=
  mkClient (predictedState c) (serverState c) b (clientTick c) (rtt c)
           (reconciliationThreshold c) (sent c).

Definition set_reconciliationThreshold (c : Client) (t : float) : Client :=
  mkClient (predictedState c) (serverState c) (inputBuffer c) (clientTick c)
           (rtt c) t (sent c).

(** [constructor()]. *)
Definition new : Client :=
  {| predictedState := mkState 0 0 0 0 None;
     serverState := mkState 0 0 0 0 (Some 0%Z);
     inputBuffer := [];
     clientTick := 0;
     rtt := 5;
     reconciliationThreshold := 0.1;
     sent := [] |}.

(** [updateState(state, input)]: the deterministic step function. *)
Definition updateState (state : State) (input : Input) : State :=
  let speed := 5 in
  let vx := moveX input * speed in
  let vy := moveY input * speed in
  {| x := x state + vx;
     y := y state + vy;
     velocityX := vx;
     velocityY := vy;
     tick := tick state |}.

(** [sendToServer(data)] only records the message. *)
Definition sendToServer (c : Client) (data : ServerMessage) : Client :=
  mkClient (predictedState c) (serverState c) (inputBuffer c) (clientTick c)
           (rtt c) (reconciliationThreshold c) (sent c ++ [data]).

(** [applyInput(input)].  [now_stored] and [now_sent] are the two reads of
    [Date.now()], for the buffer entry and for the message. *)
Definition applyInput (c : Client) (input : Input) (now_stored now_sent : Z)
  : Client :=
  let c1 := set_inputBuffer c
              (inputBuffer c ++ [mkBuffered (clientTick c) input now_stored]) in
  let c2 := set_predictedState c1 (updateState (predictedState c1) input) in
  let c3 := sendToServer c2 (mkServerMessage (clientTick c2) input now_sent) in
  mkClient (predictedState c3) (serverState c3) (inputBuffer c3)
           (clientTick c3 + 1)%Z (rtt c3) (reconciliationThreshold c3)
           (sent c3).

(** [calculateDivergence(predicted, server)]. *)
Definition calculateDivergence (predicted server : State) : float :=
  let dx := x predicted - x server in
  let dy := y predicted - y server in
  Math_sqrt (dx * dx + dy * dy).

(** [buffered.tick > snapshot.tick]; the comparison is false when the
    snapshot has no tick. *)
Definition after_tick (snapshot : State) (buffered : Buffered) : bool :=
  match tick snapshot with
  | Some t => (t <? b_tick buffered)%Z
  | None => false
  end.

(** [rollbackAndReplay(serverSnapshot)]. *)
Definition rollbackAndReplay (c : Client) (serverSnapshot : State) : Client :=
  let c1 := set_predictedState c serverSnapshot in
  let unacknowledgedInputs := filter (after_tick serverSnapshot) (inputBuffer c1) in
  set_predictedState c1
    (fold_left (fun st buffered => updateState st (b_input buffered))
               unacknowledgedInputs (predictedState c1)).

(** The blend factor computed at the start of [smoothCorrection]. *)
Definition blendFactor (c : Client) (divergence : float) : float :=
  Math_min (divergence / reconciliationThreshold c) 1 * 0.1.

(** [smoothCorrection(divergence)]. *)
Definition smoothCorrection (c : Client) (divergence : float) : Client :=
  let bf := blendFactor c divergence in
  let p := predictedState c in
  let p1 := mkState (x p + (x (serverState c) - x p) * bf)
                    (y p) (velocityX p) (velocityY p) (tick p) in
  let p2 := mkState (x p1) (y p1 + (y (serverState c) - y p1) * bf)
                    (velocityX p1) (velocityY p1) (tick p1) in
  set_predictedState c p2.

(** [onServerSnapshot(snapshot)]. *)
Definition onServerSnapshot (c : Client) (snapshot : State) : Client :=
  let c1 := set_serverState c snapshot in
  let divergence := calculateDivergence (predictedState c1) (serverState c1) in
  let c2 := if gt divergence (reconciliationThreshold c1)
            then rollbackAndReplay c1 snapshot
            else smoothCorrection c1 divergence in
  set_inputBuffer c2 (filter (after_tick snapshot) (inputBuffer c2)).

(** [getVisualState()]. *)
Definition getVisualState (c : Client) : State := predictedState c.

(** One call of [applyInput] together with its two clock reads. *)
Record InputCall := mkInputCall {
  call_input : Input;
  call_now_stored : Z;
  call_now_sent : Z
}.

(** A sequence of [applyInput] calls, in order. *)
Definition applyInputs (c : Client) (calls : list InputCall) : Client :=
  fold_left (fun c k => applyInput c (call_input k) (call_now_stored k)
                                   (call_now_sent k)) calls c.

(** The step function folded over a list of inputs. *)
Definition replay (s : State) (inputs : list Input) : State :=
  fold_left updateState inputs s.

(** The buffer holds exactly the inputs of ticks [T+1], ..., [T+k]. *)
Definition holds_ticks_after (T : Z) (buffer : list Buffered) : Prop :=
  map b_tick buffer = map (fun i => (T + 1 + Z.of_nat i)%Z) (seq 0 (length buffer)).

(** *** Runs of a client *)

(** The calls made on a client: an input applied, or a snapshot received. *)
Inductive Event :=
| EvInput (call : InputCall)
| EvSnapshot (snapshot : State).

Definition handle (c : Client) (e : Event) : Client :=
  match e with
  | EvInput k => applyInput c (call_input k) (call_now_stored k) (call_now_sent k)
  | EvSnapshot s => onServerSnapshot c s
  end.

Definition play (c : Client) (events : list Event) : Client :=
  fold_left handle events c.

(** The [applyInput] calls of a run, in order. *)
Fixpoint inputs_of (events : list Event) : list InputCall :=
  match events with
  | [] => []
  | EvInput k :: rest => k :: inputs_of rest
  | EvSnapshot _ :: rest => inputs_of rest
  end.

(** The messages [applyInput] sends for a list of calls when the first of
    them is made at client tick [t]. *)
Fixpoint messages_from (t : Z) (calls : list InputCall) : list ServerMessage :=
  match calls with
  | [] => []
  | k :: rest =>
      mkServerMessage t (call_input k) (call_now_sent k)
      :: messages_from (t + 1)%Z rest
  end.

(** Buffer entries ordered by strictly increasing tick. *)
Definition tick_before (a b : Buffered) : Prop := (b_tick a < b_tick b)%Z.

(** The buffer is ordered by strictly increasing tick and every buffered
    tick has already been used by the client. *)
Definition buffer_ordered (c : Client) : Prop :=
  StronglySorted tick_before (inputBuffer c) /\
  Forall (fun b => (0 <= b_tick b < clientTick c)%Z) (inputBuffer c).

(** The predicted state is the stored authoritative state with every
    buffered input replayed on it. *)
Definition caught_up (c : Client) : Prop :=
  predictedState c = replay (serverState c) (map b_input (inputBuffer c)).

End ClientPrediction.


(** ** NetworkProtocol (sequence numbers, acknowledgments, retransmission) *)

Module NetworkProtocol.

Open Scope Z_scope.

(** The [MessageType] table and its wire codes. *)
Inductive MessageType :=
| CLIENT_HELLO | CLIENT_INPUT | TIME_SYNC_REQ | CLIENT_ACK | CLIENT_DISCONNECT
| SERVER_HELLO | SERVER_SNAPSHOT | TIME_SYNC_RES | SERVER_ACK | SERVER_KICK.

Definition code (t : MessageType) : Z :=
  match t with
  | CLIENT_HELLO => 0x01 | CLIENT_INPUT => 0x02 | TIME_SYNC_REQ => 0x03
  | CLIENT_ACK => 0x04 | CLIENT_DISCONNECT => 0x05
  | SERVER_HELLO => 0x10 | SERVER_SNAPSHOT => 0x11 | TIME_SYNC_RES => 0x12
  | SERVER_ACK => 0x13 | SERVER_KICK => 0x14
  end.

(** *** A JavaScript [Map] keyed by sequence id

    An association list in insertion order: [set] on a present key
    replaces the value in place, on an absent key appends. *)
Section JSMap.
Context {V : Type}.

Definition map_has (k : Z) (m : list (Z * V)) : bool :=
  existsb (fun e => fst e =? k) m.

Fixpoint map_get (k : Z) (m : list (Z * V)) : option V :=
  match m with
  | [] => None
  | (k', v) :: rest => if k' =? k then Some v else map_get k rest
  end.

Fixpoint map_set (k : Z) (v : V) (m : list (Z * V)) : list (Z * V) :=
  match m with
  | [] => [(k, v)]
  | (k', v') :: rest =>
      if k' =? k then (k', v) :: rest else (k', v') :: map_set k v rest
  end.

Definition map_delete (k : Z) (m : list (Z * V)) : list (Z * V) :=
  filter (fun e => negb (fst e =? k)) m.
End JSMap.

(** *** A JavaScript [Set] of sequence ids, in insertion order *)

Definition set_has (k : Z) (s : list Z) : bool := existsb (Z.eqb k) s.

Definition set_add (k : Z) (s : list Z) : list Z :=
  if set_has k s then s else s ++ [k].

Definition set_delete (k : Z) (s : list Z) : list Z :=
  filter (fun e => negb (e =? k)) s.

(** [Array.from(set).sort((a, b) => a - b)]: ascending numeric order. *)
Fixpoint insert_ascending (k : Z) (l : list Z) : list Z :=
  match l with
  | [] => [k]
  | h :: t => if k <=? h then k :: l else h :: insert_ascending k t
  end.

Definition sort_ascending (l : list Z) : list Z :=
  fold_right insert_ascending [] l.

Section Protocol.
(** Packet payloads are opaque to the protocol. *)
Context {Payload : Type}.

(** The base packet built by [createPacket]. *)
Record Packet := mkPacket {
  type : MessageType;
  sequenceId : Z;
  payload : Payload;
  requiresAck : bool;
  timestamp : Z
}.

(** The bare packet built by [createAck]. *)
Record AckPacket := mkAckPacket {
  ack_type : MessageType;
  ack_sequenceId : Z;
  ack_timestamp : Z
}.

(** A [pendingAcks] value, [{ packet, timestamp, retries }]. *)
Record Pending := mkPending {
  packet : Packet;
  p_timestamp : Z;
  retries : Z
}.

(** The fields of a [NetworkProtocol] instance. *)
Record Protocol := mkProtocol {
  nextSequenceId : Z;
  pendingAcks : list (Z * Pending);
  receivedSequences : list Z;
  maxRetries : Z;
  ackTimeout : Z;
  maxPacketSize : Z;
  bytesSent : Z;
  bytesReceived : Z;
  packetsLost : Z
}.

Definition set_nextSequenceId (st : Protocol) (n : Z) : Protocol :=
  mkProtocol n (pendingAcks st) (receivedSequences st) (maxRetries st)
             (ackTimeout st) (maxPacketSize st) (bytesSent st)
             (bytesReceived st) (packetsLost st).

Definition set_pendingAcks (st : Protocol) (m : list (Z * Pending)) : Protocol :=
  mkProtocol (nextSequenceId st) m (receivedSequences st) (maxRetries st)
             (ackTimeout st) (maxPacketSize st) (bytesSent st)
             (bytesReceived st) (packetsLost st).

Definition set_receivedSequences (st : Protocol) (s : list Z) : Protocol :=
  mkProtocol (nextSequenceId st) (pendingAcks st) s (maxRetries st)
             (ackTimeout st) (maxPacketSize st) (bytesSent st)
             (bytesReceived st) (packetsLost st).

Definition set_packetsLost (st : Protocol) (n : Z) : Protocol :=
  mkProtocol (nextSequenceId st) (pendingAcks st) (receivedSequences st)
             (maxRetries st) (ackTimeout st) (maxPacketSize st)
             (bytesSent st) (bytesReceived st) n.

(** [constructor()]. *)
Definition new : Protocol :=
  {| nextSequenceId := 0;
     pendingAcks := [];
     receivedSequences := [];
     maxRetries := 3;
     ackTimeout := 100;
     maxPacketSize := 1400;
     bytesSent := 0;
     bytesReceived := 0;
     packetsLost := 0 |}.

(** [createAck(sequenceId)]; [now] is the read of [Date.now()]. *)
Definition createAck (sequenceId : Z) (now : Z) : AckPacket :=
  {| ack_type := CLIENT_ACK; ack_sequenceId := sequenceId; ack_timestamp := now |}.

(** [createPacket(type, payload, requiresAck)]. *)
Definition createPacket (st : Protocol) (ty : MessageType) (pl : Payload)
           (requiresAck : bool) (now : Z) : Packet * Protocol :=
  let packet := mkPacket ty (nextSequenceId st) pl requiresAck now in
  let st1 := set_nextSequenceId st (nextSequenceId st + 1) in
  let st2 :=
    if requiresAck
    then set_pendingAcks st1
           (map_set (sequenceId packet)
                    (mkPending packet (timestamp packet) 0) (pendingAcks st1))
    else st1 in
  (packet, st2).

(** The object returned by [processPacket] for a fresh packet:
    [{ payload }] or [{ payload, ackPacket }]. *)
Record Processed := mkProcessed {
  r_payload : Payload;
  r_ackPacket : option AckPacket
}.

(** The trimming of the seen-set once it holds more than 1000 ids. *)
Definition trim_received (s : list Z) : list Z :=
  if (1000 <? length s)%nat
  then fold_left (fun acc k => set_delete k acc)
                 (firstn 500 (sort_ascending s)) s
  else s.

(** [processPacket(packet)]: [None] is JavaScript's [null]. *)
Definition processPacket (st : Protocol) (p : Packet) (now : Z)
  : option Processed * Protocol :=
  if set_has (sequenceId p) (receivedSequences st) then (None, st)
  else
    let st1 := set_receivedSequences st
                 (set_add (sequenceId p) (receivedSequences st)) in
    let st2 := set_receivedSequences st1 (trim_received (receivedSequences st1)) in
    if requiresAck p
    then (Some (mkProcessed (payload p) (Some (createAck (sequenceId p) now))), st2)
    else (Some (mkProcessed (payload p) None), st2).

(** [processAck(sequenceId)]. *)
Definition processAck (st : Protocol) (sequenceId : Z) : Protocol :=
  if map_has sequenceId (pendingAcks st)
  then set_pendingAcks st (map_delete sequenceId (pendingAcks st))
  else st.

(** What one [getRetransmissions] sweep produces: the returned array,
    the sequence ids reported lost on the console, and the instance
    afterwards. *)
Record Sweep := mkSweep {
  toRetransmit : list Packet;
  lostReports : list Z;
  after : Protocol
}.

(** The loop of [getRetransmissions] over the entries of [pendingAcks]. *)
Fixpoint sweep_entries (now : Z) (entries : list (Z * Pending)) (acc : Sweep)
  : Sweep :=
  match entries with
  | [] => acc
  | (seqId, pending) :: rest =>
      let st := after acc in
      let elapsed := now - p_timestamp pending in
      if ackTimeout st <? elapsed then
        if retries pending <? maxRetries st then
          sweep_entries now rest
            (mkSweep (toRetransmit acc ++ [packet pending]) (lostReports acc)
               (set_pendingAcks st
                  (map_set seqId
                     (mkPending (packet pending) now (retries pending + 1))
                     (pendingAcks st))))
        else
          sweep_entries now rest
            (mkSweep (toRetransmit acc) (lostReports acc ++ [seqId])
               (set_packetsLost
                  (set_pendingAcks st (map_delete seqId (pendingAcks st)))
                  (packetsLost st + 1)))
      else sweep_entries now rest acc
  end.

(** [getRetransmissions()]; [now] is the read of [Date.now()]. *)
Definition getRetransmissions (st : Protocol) (now : Z) : Sweep :=
  sweep_entries now (pendingAcks st) (mkSweep [] [] st).

(** *** The sweep, entry by entry

    What the loop does to one entry depends on that entry alone.  The
    three functions below describe a whole sweep in those terms; they
    are shown equal to [getRetransmissions] on every table with unique
    keys. *)

Inductive Verdict := Resend | Lose | Keep.

Definition verdict (now timeout maxr : Z) (pending : Pending) : Verdict :=
  if timeout <? now - p_timestamp pending then
    if retries pending <? maxr then Resend else Lose
  else Keep.

Definition resent (now : Z) (pending : Pending) : Pending :=
  mkPending (packet pending) now (retries pending + 1).

Fixpoint kept_of (now timeout maxr : Z) (entries : list (Z * Pending))
  : list (Z * Pending) :=
  match entries with
  | [] => []
  | (k, pending) :: rest =>
      match verdict now timeout maxr pending with
      | Resend => (k, resent now pending) :: kept_of now timeout maxr rest
      | Lose => kept_of now timeout maxr rest
      | Keep => (k, pending) :: kept_of now timeout maxr rest
      end
  end.

Fixpoint resent_of (now timeout maxr : Z) (entries : list (Z * Pending))
  : list Packet :=
  match entries with
  | [] => []
  | (k, pending) :: rest =>
      match verdict now timeout maxr pending with
      | Resend => packet pending :: resent_of now timeout maxr rest
      | _ => resent_of now timeout maxr rest
      end
  end.

Fixpoint lost_of (now timeout maxr : Z) (entries : list (Z * Pending))
  : list Z :=
  match entries with
  | [] => []
  | (k, pending) :: rest =>
      match verdict now timeout maxr pending with
      | Lose => k :: lost_of now timeout maxr rest
      | _ => lost_of now timeout maxr rest
      end
  end.

(** *** Runs of a protocol instance *)

(** The calls a host makes on one instance. *)
Inductive Op :=
| OpCreate (ty : MessageType) (pl : Payload) (requiresAck : bool) (now : Z)
| OpProcess (p : Packet) (now : Z)
| OpAck (sequenceId : Z)
| OpSweep (now : Z).

(** One call: the retransmissions returned, the ids reported lost, and
    the instance afterwards (both lists are empty unless the call is a
    sweep). *)
Definition step (st : Protocol) (op : Op) : Sweep :=
  match op with
  | OpCreate ty pl req now => mkSweep [] [] (snd (createPacket st ty pl req now))
  | OpProcess p now => mkSweep [] [] (snd (processPacket st p now))
  | OpAck k => mkSweep [] [] (processAck st k)
  | OpSweep now => getRetransmissions st now
  end.

(** A run: the concatenated outputs of the calls, in order. *)
Fixpoint run (st : Protocol) (ops : list Op) : Sweep :=
  match ops with
  | [] => mkSweep [] [] st
  | op :: rest =>
      let r1 := step st op in
      let r2 := run (after r1) rest in
      mkSweep (toRetransmit r1 ++ toRetransmit r2)
              (lostReports r1 ++ lostReports r2) (after r2)
  end.

(** Times of the sweeps of a run, in order. *)
Fixpoint sweep_times (ops : list Op) : list Z :=
  match ops with
  | [] => []
  | OpSweep now :: rest => now :: sweep_times rest
  | _ :: rest => sweep_times rest
  end.

(** No call of [processAck] for sequence id [s]. *)
Fixpoint never_acked (s : Z) (ops : list Op) : bool :=
  match ops with
  | [] => true
  | OpAck k :: rest => negb (k =? s) && never_acked s rest
  | _ :: rest => never_acked s rest
  end.

(** Each of the first [n] sweep times lies more than [timeout] after the
    previous one, the first of them after [t]. *)
Fixpoint overdue_chain (timeout t : Z) (n : nat) (times : list Z) : Prop :=
  match n, times with
  | S n', now :: rest => timeout < now - t /\ overdue_chain timeout now n' rest
  | _, _ => True
  end.

(** The packets of a list that carry sequence id [s]. *)
Definition with_seq (s : Z) (l : list Packet) : list Packet :=
  filter (fun p => sequenceId p =? s) l.

(** How many times id [s] occurs in a list of ids. *)
Definition count_id (s : Z) (l : list Z) : nat :=
  length (filter (fun k => k =? s) l).

(** The pending entry filed under sequence id [s], if any. *)
Definition entry (s : Z) (st : Protocol) : option Pending :=
  map_get s (pendingAcks st).

(** The table invariant of every instance: keys are unique, each entry is
    filed under its packet's sequence id, and every filed id has already
    been handed out. *)
Definition wf (st : Protocol) : Prop :=
  NoDup (map fst (pendingAcks st)) /\
  Forall (fun e => sequenceId (packet (snd e)) = fst e /\
                   fst e < nextSequenceId st) (pendingAcks st).

(** The seen-set is duplicate-free and within its cap. *)
Definition seen_ok (st : Protocol) : Prop :=
  NoDup (receivedSequences st) /\ (length (receivedSequences st) <= 1000)%nat.

(** The packets handed out by the [createPacket] calls of a run, in order. *)
Fixpoint created (st : Protocol) (ops : list Op) : list Packet :=
  match ops with
  | [] => []
  | op :: rest =>
      match op with
      | OpCreate ty pl req now => [fst (createPacket st ty pl req now)]
      | _ => []
      end ++ created (after (step st op)) rest
  end.

(** The retransmissions a pending entry can still get. *)
Definition budget (e : option Pending) (maxr : Z) : Z :=
  match e with
  | None => 0
  | Some pending => Z.max 0 (maxr - retries pending)
  end.

(** An entry is due for resending, or due for giving up, at time [now]. *)
Definition due_resend (now timeout maxr : Z) (e : Z * Pending) : bool :=
  (timeout <? now - p_timestamp (snd e)) && (retries (snd e) <? maxr).

Definition due_loss (now timeout maxr : Z) (e : Z * Pending) : bool :=
  (timeout <? now - p_timestamp (snd e)) && negb (retries (snd e) <? maxr).

End Protocol.

Arguments Packet : clear implicits.
Arguments Pending : clear implicits.
Arguments Protocol : clear implicits.
Arguments Processed : clear implicits.
Arguments Sweep : clear implicits.
Arguments Op : clear implicits.

End NetworkProtocol.

(** ** TimeSync (clock synchronisation) *)

Module TimeSync.

Import JS.
Open Scope float_scope.

(** The constructor's [config] object; every option may be missing. *)
Record Config := mkConfig {
  cfg_tickRate : option float;
  cfg_syncInterval : option float;
  cfg_rttSamples : option float
}.

(** The fields of a [TimeSync] instance. *)
Record Sync := mkSync {
  tickRate : float;
  tickDuration : float;
  syncInterval : float;
  rttSamples : float;
  serverTick : Z;
  clockOffset : float;
  rttHistory : list float;
  smoothedRtt : float;
  clockDrift : float;
  lastSyncTime : float;
  lastDriftCheckTime : float;
  lastDriftOffset : float;
  syncCount : Z;
  jitter : float
}.

(** [constructor(config)]; [now] is the read of [Date.now()]. *)
Definition new (config : Config) (now : float) : Sync :=
  let tr := or_default (cfg_tickRate config) 60 in
  {| tickRate := tr;
     tickDuration := 1000 / tr;
     syncInterval := or_default (cfg_syncInterval config) 1000;
     rttSamples := or_default (cfg_rttSamples config) 10;
     serverTick := 0;
     clockOffset := 0;
     rttHistory := [];
     smoothedRtt := 0;
     clockDrift := 0;
     lastSyncTime := 0;
     lastDriftCheckTime := now;
     lastDriftOffset := 0;
     syncCount := 0;
     jitter := 0 |}.

(** A sync request, [{ type: 'time_sync_req', clientSendTime, sequenceId }]. *)
Record Request := mkRequest {
  req_clientSendTime : float;
  req_sequenceId : Z
}.

(** A sync response, [{ type: 'time_sync_res', ... }]. *)
Record Response := mkResponse {
  clientSendTime : float;
  serverReceiveTime : float;
  serverSendTime : float;
  res_serverTick : Z;
  res_sequenceId : Z
}.

(** [createSyncRequest()]; [now] is what [getLocalTime()] returns. *)
Definition createSyncRequest (s : Sync) (now : float) : Request * Sync :=
  (mkRequest now (syncCount s),
   mkSync (tickRate s) (tickDuration s) (syncInterval s) (rttSamples s)
          (serverTick s) (clockOffset s) (rttHistory s) (smoothedRtt s)
          (clockDrift s) (lastSyncTime s) (lastDriftCheckTime s)
          (lastDriftOffset s) (syncCount s + 1)%Z (jitter s)).

(** [handleSyncRequest(request, serverTick)]: builds the response and
    leaves the instance alone. *)
Definition handleSyncRequest (s : Sync) (request : Request) (tick : Z)
           (now : float) : Response :=
  mkResponse (req_clientSendTime request) now now tick (req_sequenceId request).

(** The length of an array as a JavaScript number. *)
Definition length_number {A} (l : list A) : float :=
  of_uint63 (Uint63.of_Z (Z.of_nat (length l))).

(** [updateRttStats(rtt)]. *)
Definition updateRttStats (s : Sync) (rtt : float) : Sync :=
  let pushed := rttHistory s ++ [rtt] in
  let history := if gt (length_number pushed) (rttSamples s)
                 then tl pushed else pushed in
  let alpha := 0.125 in
  let smoothed := if is_zero_number (smoothedRtt s) then rtt
                  else alpha * rtt + (1 - alpha) * smoothedRtt s in
  let meanRtt := fold_left (fun a b => a + b) history 0 / length_number history in
  let variance :=
    fold_left (fun sum val => sum + Math_abs (val - meanRtt)) history 0
    / length_number history in
  mkSync (tickRate s) (tickDuration s) (syncInterval s) (rttSamples s)
         (serverTick s) (clockOffset s) history smoothed
         (clockDrift s) (lastSyncTime s) (lastDriftCheckTime s)
         (lastDriftOffset s) (syncCount s) variance.

Definition set_clockOffset (s : Sync) (o : float) : Sync :=
  mkSync (tickRate s) (tickDuration s) (syncInterval s) (rttSamples s)
         (serverTick s) o (rttHistory s) (smoothedRtt s)
         (clockDrift s) (lastSyncTime s) (lastDriftCheckTime s)
         (lastDriftOffset s) (syncCount s) (jitter s).

(** [updateClockOffset(newOffset)]. *)
Definition updateClockOffset (s : Sync) (newOffset : float) : Sync :=
  if is_zero_number (clockOffset s) then set_clockOffset s newOffset
  else
    let delta := newOffset - clockOffset s in
    let threshold := 50 in
    let blendFactor := if gt (Math_abs delta) threshold then 0.5 else 0.1 in
    set_clockOffset s (clockOffset s + delta * blendFactor).

(** [updateClockDrift(currentOffset)]; [now] is the read of [Date.now()]. *)
Definition updateClockDrift (s : Sync) (currentOffset : float) (now : float)
  : Sync :=
  let elapsed := (now - lastDriftCheckTime s) / 1000 in
  if gt elapsed 10 then
    let offsetDelta := currentOffset - lastDriftOffset s in
    mkSync (tickRate s) (tickDuration s) (syncInterval s) (rttSamples s)
           (serverTick s) (clockOffset s) (rttHistory s) (smoothedRtt s)
           (offsetDelta / elapsed) (lastSyncTime s) now
           currentOffset (syncCount s) (jitter s)
  else s.

(** The raw offset sample computed by [processSyncResponse] ([newOffset]). *)
Definition rawOffset (response : Response) (clientReceiveTime : float) : float :=
  let rtt := clientReceiveTime - clientSendTime response in
  let oneWayLatency := rtt / 2 in
  let estimatedServerTime := serverSendTime response + oneWayLatency in
  clientReceiveTime - estimatedServerTime.

(** [processSyncResponse(response)]; [clientReceiveTime] is what
    [getLocalTime()] returns and [now] the later read of [Date.now()] in
    [updateClockDrift]. *)
Definition processSyncResponse (s : Sync) (response : Response)
           (clientReceiveTime now : float) : Sync :=
  let rtt := clientReceiveTime - clientSendTime response in
  let newOffset := rawOffset response clientReceiveTime in
  let s1 := updateRttStats s rtt in
  let s2 := updateClockOffset s1 newOffset in
  let s3 := mkSync (tickRate s2) (tickDuration s2) (syncInterval s2)
                   (rttSamples s2) (res_serverTick response) (clockOffset s2)
                   (rttHistory s2) (smoothedRtt s2) (clockDrift s2)
                   clientReceiveTime (lastDriftCheckTime s2)
                   (lastDriftOffset s2) (syncCount s2) (jitter s2) in
  updateClockDrift s3 newOffset now.

(** [calculateQuality()]. *)
Definition calculateQuality (s : Sync) : float :=
  let score := 1.0 in
  let score :=
    if gt (smoothedRtt s) 200 then score * 0.3
    else if gt (smoothedRtt s) 100 then score * 0.6
    else if gt (smoothedRtt s) 50 then score * 0.8
    else score in
  let score :=
    if gt (jitter s) 50 then score * 0.3
    else if gt (jitter s) 20 then score * 0.6
    else if gt (jitter s) 10 then score * 0.8
    else score in
  score.

(** [isSyncReliable()]. *)
Definition isSyncReliable (s : Sync) : bool :=
  gt (calculateQuality s) 0.5 && (3 <? syncCount s)%Z.

(** *** Runs of a client instance *)

(** The calls made on the requesting side. *)
Inductive Op :=
| OpRequest (now : float)
| OpResponse (response : Response) (clientReceiveTime now : float).

Definition step (s : Sync) (op : Op) : Sync :=
  match op with
  | OpRequest now => snd (createSyncRequest s now)
  | OpResponse r t now => processSyncResponse s r t now
  end.

Definition run (s : Sync) (ops : list Op) : Sync := fold_left step ops s.

Definition is_request (op : Op) : bool :=
  match op with OpRequest _ => true | OpResponse _ _ _ => false end.

(** Requests created and responses processed (samples collected) in a run. *)
Definition requests_created (ops : list Op) : nat :=
  length (filter is_request ops).

Definition samples_collected (ops : list Op) : nat :=
  length (filter (fun op => negb (is_request op)) ops).

(** The offset the blended update prescribes for a sample taken when the
    offset is [o]. *)
Definition blended (o raw : float) : float :=
  o + (raw - o) * (if gt (Math_abs (raw - o)) 50 then 0.5 else 0.1).

(** The round-trip times measured by the responses of a run, in order. *)
Fixpoint sample_rtts (ops : list Op) : list float :=
  match ops with
  | [] => []
  | OpResponse r t _ :: rest => (t - clientSendTime r) :: sample_rtts rest
  | OpRequest _ :: rest => sample_rtts rest
  end.

(** The local times of the requests of a run, in order. *)
Fixpoint request_times (ops : list Op) : list float :=
  match ops with
  | [] => []
  | OpRequest now :: rest => now :: request_times rest
  | OpResponse _ _ _ :: rest => request_times rest
  end.

(** The requests handed out by the [createSyncRequest] calls of a run. *)
Fixpoint requests_made (s : Sync) (ops : list Op) : list Request :=
  match ops with
  | [] => []
  | op :: rest =>
      match op with
      | OpRequest now => [fst (createSyncRequest s now)]
      | OpResponse _ _ _ => []
      end ++ requests_made (step s op) rest
  end.

End TimeSync.


(** * Properties *)

(** ** Floating-point comparison facts *)

Section FloatOrder.

Open Scope float_scope.

(** The specification-level comparison is antisymmetric. *)
Lemma SFcompare_swap (a b : SpecFloat.spec_float) :
  SpecFloat.SFcompare b a = option_map CompOpp (SpecFloat.SFcompare a b).
Proof.
  destruct a as [sa|sa| |sa ma ea], b as [sb|sb| |sb mb eb]; simpl;
    try reflexivity;
    try (destruct sa; reflexivity); try (destruct sb; reflexivity);
    try (destruct sa, sb; reflexivity).
  destruct sa, sb; simpl; try reflexivity.
  - rewrite (Z.compare_antisym ea eb).
    destruct (ea ?= eb)%Z eqn:E; simpl; try reflexivity.
    rewrite (Pos.compare_cont_antisym mb ma Eq). simpl.
    now rewrite CompOpp_involutive.
  - rewrite (Z.compare_antisym ea eb).
    destruct (ea ?= eb)%Z eqn:E; simpl; try reflexivity.
    now rewrite (Pos.compare_cont_antisym ma mb Eq).
Qed.

(** [a <= b] excludes [a > b]. *)
Lemma leb_not_gt (a b : float) : (a <=? b) = true -> JS.gt a b = false.
Proof.
  unfold JS.gt. rewrite leb_spec, ltb_spec.
  unfold SpecFloat.SFleb, SpecFloat.SFltb.
  rewrite (SFcompare_swap (Prim2SF a) (Prim2SF b)).
  destruct (SpecFloat.SFcompare (Prim2SF a) (Prim2SF b)) as [[ | | ]|];
    simpl; congruence.
Qed.

End FloatOrder.

(** ** ClientPrediction *)

Module ClientPredictionFacts.

Import JS ClientPrediction.
Open Scope float_scope.

(** *** Field-wise behaviour of the operations *)

Lemma applyInput_predictedState c input n1 n2 :
  predictedState (applyInput c input n1 n2)
  = updateState (predictedState c) input.
Proof. reflexivity. Qed.

Lemma replay_buffered (s : State) (l : list Buffered) :
  fold_left (fun st b => updateState st (b_input b)) l s
  = replay s (map b_input l).
Proof.
  revert s. induction l as [|b l IH]; intros s; simpl; [reflexivity|].
  apply IH.
Qed.

Lemma rollbackAndReplay_predictedState c snapshot :
  predictedState (rollbackAndReplay c snapshot)
  = replay snapshot (map b_input (filter (after_tick snapshot) (inputBuffer c))).
Proof. unfold rollbackAndReplay. simpl. apply replay_buffered. Qed.

Lemma rollbackAndReplay_inputBuffer c snapshot :
  inputBuffer (rollbackAndReplay c snapshot) = inputBuffer c.
Proof. reflexivity. Qed.

Lemma smoothCorrection_inputBuffer c d :
  inputBuffer (smoothCorrection c d) = inputBuffer c.
Proof. reflexivity. Qed.

(** Whatever branch runs, the buffer left by [onServerSnapshot] is the old
    one filtered by the snapshot's tick. *)
Lemma onServerSnapshot_inputBuffer c snapshot :
  inputBuffer (onServerSnapshot c snapshot)
  = filter (after_tick snapshot) (inputBuffer c).
Proof.
  unfold onServerSnapshot.
  destruct (gt _ _); reflexivity.
Qed.

(** On the rollback branch the predicted state is the replay of the
    unacknowledged inputs from the snapshot. *)
Lemma onServerSnapshot_rollback c snapshot :
  gt (calculateDivergence (predictedState c) snapshot)
     (reconciliationThreshold c) = true ->
  predictedState (onServerSnapshot c snapshot)
  = replay snapshot (map b_input (filter (after_tick snapshot) (inputBuffer c))).
Proof.
  intros Hgt. unfold onServerSnapshot. simpl. rewrite Hgt. simpl.
  apply replay_buffered.
Qed.

(** On the blend branch the predicted state is the one left by
    [smoothCorrection]. *)
Lemma onServerSnapshot_blend c snapshot :
  gt (calculateDivergence (predictedState c) snapshot)
     (reconciliationThreshold c) = false ->
  predictedState (onServerSnapshot c snapshot)
  = predictedState
      (smoothCorrection (set_serverState c snapshot)
         (calculateDivergence (predictedState c) snapshot)).
Proof.
  intros Hgt. unfold onServerSnapshot. simpl. rewrite Hgt. reflexivity.
Qed.

(** A buffer that holds exactly the ticks after [T] survives the filter. *)
Lemma holds_ticks_after_gt T buffer :
  holds_ticks_after T buffer ->
  Forall (fun b => (T < b_tick b)%Z) buffer.
Proof.
  unfold holds_ticks_after. intros H.
  apply Forall_forall. intros b Hb.
  apply (in_map b_tick) in Hb. rewrite H in Hb.
  apply in_map_iff in Hb. destruct Hb as [i [Hi _]]. lia.
Qed.

Lemma filter_after_tick_all snapshot T buffer :
  tick snapshot = Some T ->
  Forall (fun b => (T < b_tick b)%Z) buffer ->
  filter (after_tick snapshot) buffer = buffer.
Proof.
  intros HT. induction 1 as [|b l Hb _ IH]; simpl; [reflexivity|].
  unfold after_tick at 1. rewrite HT.
  apply Z.ltb_lt in Hb. rewrite Hb. now rewrite IH.
Qed.

(** *** Pure prediction *)

(** C3: for every finite sequence of [applyInput] calls made with no
    snapshot in between, the predicted state afterwards is [updateState]
    folded over the inputs, in call order, from the predicted state the
    sequence started with (in particular from the constructor's). *)
Theorem pure_prediction_fold (c : Client) (calls : list InputCall) :
  predictedState (applyInputs c calls)
  = replay (predictedState c) (map call_input calls).
Proof.
  unfold applyInputs, replay. revert c.
  induction calls as [|k calls IH]; intros c; simpl; [reflexivity|].
  rewrite IH. now rewrite applyInput_predictedState.
Qed.

(** *** Rollback *)

(** C1 as stated fails: the client has predicted one input past the
    snapshot of tick 0, its buffer holds exactly tick 1, and the snapshot
    is off by 0.05, which is under the threshold 0.1; the call blends
    instead of replaying. *)
Lemma rollback_claim_fails_on_small_divergence :
  let c := applyInput
             (onServerSnapshot (applyInput new (mkInput 0 0) 0 0)
                               (mkState 0 0 0 0 (Some 0%Z)))
             (mkInput 0.01 0) 16 16 in
  let snapshot := mkState 0 0 0 0 (Some 0%Z) in
  tick snapshot = Some 0%Z /\
  holds_ticks_after 0 (inputBuffer c) /\
  predictedState (onServerSnapshot c snapshot)
  = mkState 0.047500000000000001 0 0.050000000000000003 0 None /\
  replay snapshot (map b_input (inputBuffer c))
  = mkState 0.050000000000000003 0 0.050000000000000003 0 (Some 0%Z) /\
  predictedState (onServerSnapshot c snapshot)
  <> replay snapshot (map b_input (inputBuffer c)).
Proof.
  cbv zeta. repeat split; try reflexivity.
  intros H. apply (f_equal tick) in H. vm_compute in H. discriminate.
Qed.

(** C1, amended: for every snapshot with tick [T] whose divergence from
    the current predicted state exceeds the reconciliation threshold, and
    every input buffer -- entries of tick at most [T] included, as when the
    snapshot acknowledges inputs still buffered -- the predicted state after
    [onServerSnapshot] is [updateState] folded, in buffer order, over the
    buffered inputs with tick above [T] and over those only, from the
    snapshot's state; the earlier predicted state only enters through the
    branch test. *)
Theorem rollback_replays_unacknowledged (c : Client) (snapshot : State) (T : Z) :
  tick snapshot = Some T ->
  gt (calculateDivergence (predictedState c) snapshot)
     (reconciliationThreshold c) = true ->
  predictedState (onServerSnapshot c snapshot)
  = replay snapshot
      (map b_input (filter (fun b => (T <? b_tick b)%Z) (inputBuffer c))).
Proof.
  intros HT Hgt.
  rewrite (onServerSnapshot_rollback _ _ Hgt).
  f_equal. f_equal. apply filter_ext.
  intros b. unfold after_tick. now rewrite HT.
Qed.

(** Inputs at ticks 0, 1 and 2 are buffered when the snapshot of tick 1
    arrives: only the input of tick 2 is replayed, from x = 9 to x = 14;
    replaying the whole buffer would give 24. *)
Lemma rollback_replays_unacknowledged_witness :
  let c := applyInput (applyInput (applyInput new (mkInput 1 0) 0 0)
                                  (mkInput 1 0) 16 16) (mkInput 1 0) 33 33 in
  let snapshot := mkState 9 0 5 0 (Some 1%Z) in
  tick snapshot = Some 1%Z /\
  gt (calculateDivergence (predictedState c) snapshot)
     (reconciliationThreshold c) = true /\
  map b_tick (inputBuffer c) = [0; 1; 2]%Z /\
  predictedState (onServerSnapshot c snapshot) = mkState 14 0 5 0 (Some 1%Z) /\
  replay snapshot (map b_input (inputBuffer c)) = mkState 24 0 5 0 (Some 1%Z) /\
  predictedState (onServerSnapshot c snapshot)
  = replay snapshot
      (map b_input (filter (fun b => (1 <? b_tick b)%Z) (inputBuffer c))).
Proof.
  intros c snapshot. split; [reflexivity|]. split; [reflexivity|].
  split; [reflexivity|]. split; [reflexivity|]. split; [reflexivity|].
  exact (rollback_replays_unacknowledged c snapshot 1%Z eq_refl eq_refl).
Defined.

(** In particular, when the buffer holds exactly the inputs of ticks
    [T+1], ..., [T+k], all of them are replayed. *)
Corollary rollback_replays_whole_buffer (c : Client) (snapshot : State) (T : Z) :
  tick snapshot = Some T ->
  holds_ticks_after T (inputBuffer c) ->
  gt (calculateDivergence (predictedState c) snapshot)
     (reconciliationThreshold c) = true ->
  predictedState (onServerSnapshot c snapshot)
  = replay snapshot (map b_input (inputBuffer c)).
Proof.
  intros HT Hbuf Hgt.
  rewrite (onServerSnapshot_rollback _ _ Hgt).
  now rewrite (filter_after_tick_all snapshot T _ HT (holds_ticks_after_gt _ _ Hbuf)).
Qed.

(** *** Stale snapshots *)

(** C2 as stated fails: after the snapshot of tick 5 has been applied, a
    snapshot of tick 3 replaces both the stored authoritative state and
    the predicted state. *)
Lemma stale_snapshot_is_applied :
  let c := onServerSnapshot new (mkState 1 0 0 0 (Some 5%Z)) in
  let stale := mkState 2 0 0 0 (Some 3%Z) in
  tick (serverState c) = Some 5%Z /\
  serverState (onServerSnapshot c stale) = stale /\
  predictedState (onServerSnapshot c stale) = stale /\
  serverState (onServerSnapshot c stale) <> serverState c /\
  predictedState (onServerSnapshot c stale) <> predictedState c.
Proof.
  cbv zeta. repeat split; try reflexivity;
    intros H; apply (f_equal tick) in H; vm_compute in H; discriminate.
Qed.

(** C2, amended: [onServerSnapshot] has no stale-snapshot guard.  For
    every snapshot, whatever its tick, the stored authoritative state
    becomes that snapshot, and the whole outcome of the call is the same
    whichever authoritative state (hence whichever last-applied tick) was
    stored before. *)
Theorem snapshot_applied_whatever_its_tick
        (c : Client) (snapshot previous : State) :
  serverState (onServerSnapshot c snapshot) = snapshot /\
  onServerSnapshot (set_serverState c previous) snapshot
  = onServerSnapshot c snapshot.
Proof.
  split.
  - unfold onServerSnapshot. destruct (gt _ _); reflexivity.
  - reflexivity.
Qed.

(** *** Pruning *)

(** C8: for every snapshot with tick [T], after [onServerSnapshot] the
    input buffer has no entry with tick at most [T], on the blend branch
    and on the rollback branch alike. *)
Theorem pruning_after_snapshot (c : Client) (snapshot : State) (T : Z) :
  tick snapshot = Some T ->
  Forall (fun b => ~ (b_tick b <= T)%Z)
         (inputBuffer (onServerSnapshot c snapshot)).
Proof.
  intros HT. rewrite onServerSnapshot_inputBuffer.
  apply Forall_forall. intros b Hb.
  apply filter_In in Hb. destruct Hb as [_ Hb].
  unfold after_tick in Hb. rewrite HT in Hb.
  apply Z.ltb_lt in Hb. lia.
Qed.

Lemma pruning_after_snapshot_witness :
  let c := applyInput (applyInput (applyInput new (mkInput 1 0) 0 0)
                                  (mkInput 1 0) 16 16) (mkInput 0 1) 33 33 in
  let snapshot := mkState 10 0 5 0 (Some 1%Z) in
  tick snapshot = Some 1%Z /\
  map b_tick (inputBuffer c) = [0; 1; 2]%Z /\
  map b_tick (inputBuffer (onServerSnapshot c snapshot)) = [2%Z] /\
  Forall (fun b => ~ (b_tick b <= 1)%Z)
         (inputBuffer (onServerSnapshot c snapshot)).
Proof.
  intros c snapshot. split; [reflexivity|]. split; [reflexivity|].
  split; [reflexivity|].
  exact (pruning_after_snapshot c snapshot 1%Z eq_refl).
Defined.

(** *** The blend branch *)

Lemma smoothCorrection_velocity c d :
  velocityX (predictedState (smoothCorrection c d)) = velocityX (predictedState c) /\
  velocityY (predictedState (smoothCorrection c d)) = velocityY (predictedState c) /\
  tick (predictedState (smoothCorrection c d)) = tick (predictedState c).
Proof. repeat split. Qed.

(** C10: on every call of [onServerSnapshot] whose divergence is at most
    the reconciliation threshold, the predicted state keeps its
    [velocityX] and [velocityY] (and its [tick]); of the predicted state
    only [x] and [y] may have changed. *)
Theorem blend_keeps_velocity (c : Client) (snapshot : State) :
  (calculateDivergence (predictedState c) snapshot
   <=? reconciliationThreshold c) = true ->
  velocityX (predictedState (onServerSnapshot c snapshot))
  = velocityX (predictedState c) /\
  velocityY (predictedState (onServerSnapshot c snapshot))
  = velocityY (predictedState c) /\
  tick (predictedState (onServerSnapshot c snapshot))
  = tick (predictedState c).
Proof.
  intros Hle. apply leb_not_gt in Hle.
  rewrite (onServerSnapshot_blend _ _ Hle).
  exact (smoothCorrection_velocity (set_serverState c snapshot) _).
Qed.

Lemma blend_keeps_velocity_witness :
  let c := applyInput (applyInput new (mkInput 1 0) 0 0) (mkInput 1 0) 16 16 in
  let snapshot := mkState 9.9375 0 0 0 (Some 1%Z) in
  (calculateDivergence (predictedState c) snapshot
   <=? reconciliationThreshold c) = true /\
  x (predictedState (onServerSnapshot c snapshot)) <> x (predictedState c) /\
  velocityX snapshot <> velocityX (predictedState c) /\
  (velocityX (predictedState (onServerSnapshot c snapshot))
   = velocityX (predictedState c) /\
   velocityY (predictedState (onServerSnapshot c snapshot))
   = velocityY (predictedState c) /\
   tick (predictedState (onServerSnapshot c snapshot))
   = tick (predictedState c)).
Proof.
  intros c snapshot. split; [reflexivity|].
  split; [intros H; apply (f_equal (fun v => v =? 10)) in H;
          vm_compute in H; discriminate|].
  split; [intros H; apply (f_equal (fun v => v =? 5)) in H;
          vm_compute in H; discriminate|].
  exact (blend_keeps_velocity c snapshot eq_refl).
Defined.

(** *** The blend scenario *)

(** C9 as stated fails: with threshold 5 the blend factor for a divergence
    of 0.5 is 1%, not 5%, and the corrected x is 9.995, which is 0.02 away
    from 9.975. *)
Lemma blend_scenario_is_not_five_percent :
  let c := set_reconciliationThreshold
             (applyInput (applyInput new (mkInput 1 0) 0 0) (mkInput 1 0) 16 16)
             5 in
  let snapshot := mkState 9.5 0 5 0 (Some 0%Z) in
  let divergence := calculateDivergence (predictedState c) snapshot in
  x (predictedState c) = 10 /\
  divergence = 0.5 /\
  (blendFactor (set_serverState c snapshot) divergence =? 0.05) = false /\
  (abs (x (predictedState (onServerSnapshot c snapshot)) - 9.975) <? 0.019)
  = false.
Proof. cbv zeta. repeat split. Qed.

(** C9, amended: with speed 5 and threshold 5, after [applyInput] of
    [{moveX: 1, moveY: 0}] at ticks 0 and 1 the predicted x goes 0, 5, 10;
    the snapshot of tick 0 with x = 9.5 diverges by 0.5, within the
    threshold, so the blend branch runs, with blend factor
    min(0.5/5, 1) * 0.1, that is 1%; the corrected x is 9.995 (to the
    nearest double), not a snap to 9.5, and the velocities are kept. *)
Theorem blend_scenario :
  let c0 := set_reconciliationThreshold new 5 in
  let c1 := applyInput c0 (mkInput 1 0) 0 0 in
  let c2 := applyInput c1 (mkInput 1 0) 16 16 in
  let snapshot := mkState 9.5 0 5 0 (Some 0%Z) in
  let divergence := calculateDivergence (predictedState c2) snapshot in
  let c3 := onServerSnapshot c2 snapshot in
  map b_tick (inputBuffer c2) = [0; 1]%Z /\
  (x (predictedState c0), x (predictedState c1), x (predictedState c2))
  = (0, 5, 10) /\
  divergence = 0.5 /\
  gt divergence (reconciliationThreshold c2) = false /\
  blendFactor (set_serverState c2 snapshot) divergence = 0.010000000000000002 /\
  predictedState c3 = mkState 9.9949999999999992 0 5 0 None /\
  (abs (x (predictedState c3) - 9.995) <? 0.000000001) = true /\
  x (predictedState c3) <> x snapshot.
Proof.
  cbv zeta. repeat split.
  intros H. apply (f_equal (fun v => v =? 9.5)) in H.
  vm_compute in H. discriminate.
Qed.

End ClientPredictionFacts.

(** ** NetworkProtocol *)

Module NetworkProtocolFacts.

Import NetworkProtocol.
Open Scope Z_scope.

(** *** The map operations *)

Section MapFacts.
Context {V : Type}.
Implicit Types (m : list (Z * V)) (k s : Z) (v : V).

Lemma map_get_absent s m : ~ In s (map fst m) -> map_get s m = None.
Proof.
  induction m as [|[k v] m IH]; simpl; intros Hs; [reflexivity|].
  destruct (Z.eqb_spec k s) as [->|Hk]; [tauto|].
  apply IH. tauto.
Qed.

Lemma map_get_present s v m : map_get s m = Some v -> In s (map fst m).
Proof.
  induction m as [|[k v'] m IH]; simpl; [discriminate|].
  destruct (Z.eqb_spec k s) as [->|Hk]; [auto|]. intros H. right. auto.
Qed.

Lemma map_has_in k m : map_has k m = true <-> In k (map fst m).
Proof.
  unfold map_has. rewrite existsb_exists. split.
  - intros [[k' v] [Hin Hk]]. simpl in Hk. apply Z.eqb_eq in Hk. subst.
    now apply (in_map fst) in Hin.
  - intros Hin. apply in_map_iff in Hin. destruct Hin as [[k' v] [Hk Hin]].
    simpl in Hk. subst. exists (k, v). split; [assumption|]. apply Z.eqb_refl.
Qed.

Lemma map_set_present k v m1 v0 m2 :
  ~ In k (map fst m1) ->
  map_set k v (m1 ++ (k, v0) :: m2) = m1 ++ (k, v) :: m2.
Proof.
  induction m1 as [|[k' v'] m1 IH]; simpl; intros Hk.
  - now rewrite Z.eqb_refl.
  - destruct (Z.eqb_spec k' k) as [->|Hne]; [tauto|].
    rewrite IH; tauto.
Qed.

Lemma map_set_absent k v m :
  ~ In k (map fst m) -> map_set k v m = m ++ [(k, v)].
Proof.
  induction m as [|[k' v'] m IH]; simpl; intros Hk; [reflexivity|].
  destruct (Z.eqb_spec k' k) as [->|Hne]; [tauto|].
  rewrite IH; tauto.
Qed.

Lemma map_get_set s k v m :
  map_get s (map_set k v m) = if k =? s then Some v else map_get s m.
Proof.
  induction m as [|[k' v'] m IH]; simpl.
  - destruct (k =? s); reflexivity.
  - destruct (Z.eqb_spec k' k) as [->|Hne]; simpl.
    + destruct (k =? s); reflexivity.
    + rewrite IH. destruct (Z.eqb_spec k' s) as [->|Hs]; [|reflexivity].
      destruct (Z.eqb_spec k s); [congruence|reflexivity].
Qed.

Lemma map_delete_absent k m : ~ In k (map fst m) -> map_delete k m = m.
Proof.
  induction m as [|[k' v'] m IH]; simpl; intros Hk; [reflexivity|].
  destruct (Z.eqb_spec k' k) as [->|Hne]; [tauto|]. simpl.
  rewrite IH; tauto.
Qed.

Lemma map_delete_present k v m1 m2 :
  ~ In k (map fst m1) -> ~ In k (map fst m2) ->
  map_delete k (m1 ++ (k, v) :: m2) = m1 ++ m2.
Proof.
  intros H1 H2. unfold map_delete. rewrite filter_app. simpl.
  rewrite Z.eqb_refl. simpl.
  fold (map_delete k m1). fold (map_delete k m2).
  now rewrite !map_delete_absent.
Qed.

Lemma map_get_delete s k m :
  k <> s -> map_get s (map_delete k m) = map_get s m.
Proof.
  intros Hks. induction m as [|[k' v'] m IH]; simpl; [reflexivity|].
  destruct (Z.eqb_spec k' k) as [->|Hne]; simpl.
  - destruct (Z.eqb_spec k s); [congruence|]. apply IH.
  - rewrite IH. reflexivity.
Qed.

Lemma map_delete_keys_incl k m x :
  In x (map fst (map_delete k m)) -> In x (map fst m).
Proof.
  unfold map_delete. intros H. apply in_map_iff in H.
  destruct H as [e [He Hin]]. apply filter_In in Hin.
  apply in_map_iff. exists e. tauto.
Qed.

Lemma map_delete_NoDup k m :
  NoDup (map fst m) -> NoDup (map fst (map_delete k m)).
Proof.
  induction m as [|[k' v'] m IH]; simpl; intros H; [constructor|].
  inversion H as [|? ? Hnin Hnd]; subst.
  destruct (k' =? k); simpl; [auto|].
  constructor; [|auto].
  intros Hin. apply Hnin. eapply map_delete_keys_incl; eauto.
Qed.

Lemma map_get_delete_same k m : map_get k (map_delete k m) = None.
Proof.
  apply map_get_absent. intros Hin. apply in_map_iff in Hin.
  destruct Hin as [e [He Hin]]. unfold map_delete in Hin.
  apply filter_In in Hin. destruct Hin as [_ Hin].
  rewrite He, Z.eqb_refl in Hin. discriminate.
Qed.

End MapFacts.

Section SweepFacts.
Context {Payload : Type}.
Implicit Types (st : Protocol Payload) (acc : Sweep Payload)
         (entries done : list (Z * Pending Payload)).

(** The loop of [getRetransmissions] computes the entry-wise
    description, whenever the table has unique keys. *)
Lemma sweep_entries_eq now entries : forall done acc,
  pendingAcks (after acc) = done ++ entries ->
  NoDup (map fst (done ++ entries)) ->
  let T := ackTimeout (after acc) in
  let M := maxRetries (after acc) in
  sweep_entries now entries acc
  = mkSweep (toRetransmit acc ++ resent_of now T M entries)
            (lostReports acc ++ lost_of now T M entries)
            (set_packetsLost
               (set_pendingAcks (after acc) (done ++ kept_of now T M entries))
               (packetsLost (after acc)
                + Z.of_nat (length (lost_of now T M entries)))).
Proof.
  induction entries as [|[k pd] rest IH]; intros done acc Hp Hnd; cbv zeta.
  - simpl. rewrite !app_nil_r in *. rewrite Z.add_0_r.
    destruct acc as [tr lr st]. simpl in *. destruct st. simpl in *.
    subst. reflexivity.
  - rewrite map_app in Hnd. simpl in Hnd.
    pose proof (NoDup_remove_2 _ _ _ Hnd) as Hk.
    assert (Hkd : ~ In k (map fst done)) by (intros H; apply Hk, in_or_app; auto).
    assert (Hkr : ~ In k (map fst rest)) by (intros H; apply Hk, in_or_app; auto).
    simpl. unfold verdict.
    destruct (ackTimeout (after acc) <? now - p_timestamp pd) eqn:Hover.
    + destruct (retries pd <? maxRetries (after acc)) eqn:Hret.
      * rewrite (IH (done ++ [(k, resent now pd)])).
        -- simpl. rewrite <- !app_assoc. reflexivity.
        -- simpl. rewrite Hp. rewrite map_set_present by assumption.
           now rewrite <- app_assoc.
        -- rewrite <- app_assoc. simpl. rewrite map_app. exact Hnd.
      * rewrite (IH done).
        -- simpl. rewrite <- !app_assoc. simpl.
           rewrite Zpos_P_of_succ_nat.
           replace (packetsLost (after acc) + 1
                    + Z.of_nat (length (lost_of now (ackTimeout (after acc))
                                                (maxRetries (after acc)) rest)))
             with (packetsLost (after acc)
                   + Z.succ (Z.of_nat (length (lost_of now (ackTimeout (after acc))
                                                      (maxRetries (after acc)) rest))))
             by lia.
           reflexivity.
        -- simpl. rewrite Hp. now rewrite map_delete_present.
        -- rewrite map_app. eapply NoDup_remove_1; eauto.
    + rewrite (IH (done ++ [(k, pd)])).
      * rewrite <- !app_assoc. reflexivity.
      * rewrite Hp. now rewrite <- app_assoc.
      * rewrite <- app_assoc. simpl. rewrite map_app. exact Hnd.
Qed.

Lemma getRetransmissions_eq st now :
  NoDup (map fst (pendingAcks st)) ->
  let T := ackTimeout st in
  let M := maxRetries st in
  getRetransmissions st now
  = mkSweep (resent_of now T M (pendingAcks st))
            (lost_of now T M (pendingAcks st))
            (set_packetsLost
               (set_pendingAcks st (kept_of now T M (pendingAcks st)))
               (packetsLost st
                + Z.of_nat (length (lost_of now T M (pendingAcks st))))).
Proof.
  intros Hnd. unfold getRetransmissions.
  rewrite (sweep_entries_eq now (pendingAcks st) [] (mkSweep [] [] st));
    [reflexivity|reflexivity|exact Hnd].
Qed.

End SweepFacts.

Section KeyFacts.
Context {Payload : Type}.
Implicit Types (st : Protocol Payload)
         (entries : list (Z * Pending Payload)) (pd : Pending Payload).

Variables (now T M : Z).

Lemma kept_of_keys_incl entries x :
  In x (map fst (kept_of now T M entries)) -> In x (map fst entries).
Proof.
  induction entries as [|[k pd] rest IH]; simpl; [tauto|].
  destruct (verdict now T M pd); simpl; tauto.
Qed.

Lemma kept_of_NoDup entries :
  NoDup (map fst entries) -> NoDup (map fst (kept_of now T M entries)).
Proof.
  induction entries as [|[k pd] rest IH]; simpl; intros H; [constructor|].
  inversion H as [|? ? Hnin Hnd]; subst.
  destruct (verdict now T M pd); simpl; auto;
    (constructor; [|auto]); intros Hin; apply Hnin;
    eapply kept_of_keys_incl; eauto.
Qed.

Lemma kept_of_Forall (P : Z * Pending Payload -> Prop) entries :
  (forall k pd, P (k, pd) -> P (k, resent now pd)) ->
  Forall P entries -> Forall P (kept_of now T M entries).
Proof.
  intros HP. induction 1 as [|[k pd] rest Hh _ IH]; simpl; [constructor|].
  destruct (verdict now T M pd); auto.
Qed.

(** Every packet resent carries the key of an entry of the table. *)
Lemma resent_of_absent s entries :
  Forall (fun e => sequenceId (packet (snd e)) = fst e) entries ->
  ~ In s (map fst entries) ->
  with_seq s (resent_of now T M entries) = [].
Proof.
  induction 1 as [|[k pd] rest Hh _ IH]; simpl; intros Hs; [reflexivity|].
  simpl in Hh.
  destruct (verdict now T M pd); simpl; try (apply IH; tauto).
  rewrite Hh. destruct (Z.eqb_spec k s) as [->|Hne]; [tauto|].
  apply IH; tauto.
Qed.

Lemma lost_of_absent s entries :
  ~ In s (map fst entries) -> count_id s (lost_of now T M entries) = 0%nat.
Proof.
  unfold count_id.
  induction entries as [|[k pd] rest IH]; simpl; intros Hs; [reflexivity|].
  destruct (verdict now T M pd); simpl; try (apply IH; tauto).
  destruct (Z.eqb_spec k s) as [->|Hne]; [tauto|].
  apply IH; tauto.
Qed.

(** What one sweep does about sequence id [s]. *)
Lemma sweep_key s entries :
  NoDup (map fst entries) ->
  Forall (fun e => sequenceId (packet (snd e)) = fst e) entries ->
  match map_get s entries with
  | None =>
      map_get s (kept_of now T M entries) = None /\
      with_seq s (resent_of now T M entries) = [] /\
      count_id s (lost_of now T M entries) = 0%nat
  | Some pd =>
      match verdict now T M pd with
      | Resend =>
          map_get s (kept_of now T M entries) = Some (resent now pd) /\
          with_seq s (resent_of now T M entries) = [packet pd] /\
          count_id s (lost_of now T M entries) = 0%nat
      | Lose =>
          map_get s (kept_of now T M entries) = None /\
          with_seq s (resent_of now T M entries) = [] /\
          count_id s (lost_of now T M entries) = 1%nat
      | Keep =>
          map_get s (kept_of now T M entries) = Some pd /\
          with_seq s (resent_of now T M entries) = [] /\
          count_id s (lost_of now T M entries) = 0%nat
      end
  end.
Proof.
  induction entries as [|[k pd] rest IH]; simpl; intros Hnd Hwf.
  - repeat split.
  - inversion Hnd as [|? ? Hnin Hnd']; subst.
    inversion Hwf as [|? ? Hh Hwf']; subst. simpl in Hh.
    specialize (IH Hnd' Hwf').
    destruct (Z.eqb_spec k s) as [->|Hne].
    + assert (Hnone : map_get s (kept_of now T M rest) = None).
      { apply map_get_absent. intros Hin. apply Hnin.
        eapply kept_of_keys_incl; eauto. }
      pose proof (resent_of_absent s rest Hwf' Hnin) as Hres.
      pose proof (lost_of_absent s rest Hnin) as Hlost.
      unfold count_id in *.
      destruct (verdict now T M pd); simpl; rewrite ?Z.eqb_refl, ?Hh, ?Z.eqb_refl;
        simpl; rewrite ?Hres, ?Hlost; repeat split; auto.
    + assert (Hks : (k =? s) = false) by now apply Z.eqb_neq.
      unfold count_id in *.
      destruct (map_get s rest) as [pd'|];
        [destruct (verdict now T M pd')|];
        destruct (verdict now T M pd); simpl; rewrite ?Hh, ?Hks; exact IH.
Qed.

End KeyFacts.

Section RunFacts.
Context {Payload : Type}.
Implicit Types (st : Protocol Payload) (op : Op Payload)
         (ops : list (Op Payload)) (pd : Pending Payload).

Lemma wf_fresh st : wf st -> ~ In (nextSequenceId st) (map fst (pendingAcks st)).
Proof.
  intros [_ Hall] Hin. apply in_map_iff in Hin.
  destruct Hin as [e [He Hin]].
  rewrite Forall_forall in Hall. specialize (Hall e Hin). lia.
Qed.

Lemma createPacket_wf st ty pl req now :
  wf st -> wf (snd (createPacket st ty pl req now)).
Proof.
  intros Hwf. pose proof (wf_fresh st Hwf) as Hfresh.
  destruct Hwf as [Hnd Hall]. unfold createPacket, wf.
  destruct req; simpl.
  - rewrite map_set_absent by assumption. split.
    + rewrite map_app. simpl.
      apply NoDup_app; [assumption|repeat constructor; simpl; tauto|].
      intros a Ha [<-|[]]. contradiction.
    + apply Forall_app. split.
      * eapply Forall_impl; [|exact Hall]. simpl. intros e He. lia.
      * repeat constructor; simpl; lia.
  - split; [assumption|].
    eapply Forall_impl; [|exact Hall]. simpl. intros e He. lia.
Qed.

Lemma processAck_wf st k : wf st -> wf (processAck st k).
Proof.
  intros [Hnd Hall]. unfold processAck.
  destruct (map_has k (pendingAcks st)); [|split; assumption].
  split; simpl.
  - now apply map_delete_NoDup.
  - unfold map_delete. apply Forall_forall. intros e He.
    apply filter_In in He. rewrite Forall_forall in Hall. apply Hall. tauto.
Qed.

Lemma processPacket_pending st p now :
  pendingAcks (snd (processPacket st p now)) = pendingAcks st /\
  nextSequenceId (snd (processPacket st p now)) = nextSequenceId st /\
  ackTimeout (snd (processPacket st p now)) = ackTimeout st /\
  maxRetries (snd (processPacket st p now)) = maxRetries st /\
  packetsLost (snd (processPacket st p now)) = packetsLost st.
Proof.
  unfold processPacket.
  destruct (set_has _ _); [repeat split|].
  destruct (requiresAck p); repeat split.
Qed.

Lemma getRetransmissions_wf st now :
  wf st -> wf (after (getRetransmissions st now)).
Proof.
  intros [Hnd Hall]. rewrite getRetransmissions_eq by assumption.
  split; simpl.
  - now apply kept_of_NoDup.
  - apply kept_of_Forall; [|assumption]. intros k pd H. exact H.
Qed.

(** Every call keeps the table invariant and the configuration, never
    lowers the sequence counter, and raises [packetsLost] by the number
    of ids it reports lost. *)
Lemma step_inv st op :
  wf st ->
  wf (after (step st op)) /\
  ackTimeout (after (step st op)) = ackTimeout st /\
  maxRetries (after (step st op)) = maxRetries st /\
  nextSequenceId st <= nextSequenceId (after (step st op)) /\
  packetsLost (after (step st op))
  = packetsLost st + Z.of_nat (length (lostReports (step st op))).
Proof.
  intros Hwf. destruct op as [ty pl req now|p now|k|now]; simpl.
  - split; [now apply createPacket_wf|].
    unfold createPacket. destruct req; simpl; repeat split; lia.
  - destruct (processPacket_pending st p now) as (Hp & Hn & Ht & Hm & Hl).
    split.
    + destruct Hwf as [Hnd Hall]. unfold wf. rewrite Hp, Hn. now split.
    + rewrite Ht, Hm, Hn, Hl. repeat split; lia.
  - split; [now apply processAck_wf|].
    unfold processAck. destruct (map_has _ _); simpl; repeat split; lia.
  - split; [now apply getRetransmissions_wf|].
    destruct Hwf as [Hnd _]. rewrite getRetransmissions_eq by assumption.
    simpl. repeat split; lia.
Qed.

Lemma run_inv ops : forall st,
  wf st ->
  wf (after (run st ops)) /\
  ackTimeout (after (run st ops)) = ackTimeout st /\
  maxRetries (after (run st ops)) = maxRetries st /\
  nextSequenceId st <= nextSequenceId (after (run st ops)) /\
  packetsLost (after (run st ops))
  = packetsLost st + Z.of_nat (length (lostReports (run st ops))).
Proof.
  induction ops as [|op ops IH]; intros st Hwf; simpl.
  - repeat split; [apply Hwf|apply Hwf|lia|lia].
  - destruct (step_inv st op Hwf) as (Hwf1 & Ht & Hm & Hn & Hl).
    destruct (IH _ Hwf1) as (Hwf2 & Ht2 & Hm2 & Hn2 & Hl2).
    rewrite length_app, Nat2Z.inj_add.
    repeat split; try apply Hwf2; try congruence; lia.
Qed.

Variable s : Z.

(** Calls other than a sweep or an acknowledgment of [s] leave entry [s]
    alone, once [s] has been handed out. *)
Lemma step_frame st op :
  wf st -> s < nextSequenceId st ->
  match op with
  | OpSweep _ => True
  | OpAck k => k <> s -> entry s (after (step st op)) = entry s st
  | _ => entry s (after (step st op)) = entry s st
  end.
Proof.
  intros Hwf Hs. unfold entry. destruct op as [ty pl req now|p now|k|now]; simpl; auto.
  - unfold createPacket. destruct req; simpl; [|reflexivity].
    rewrite map_get_set. destruct (Z.eqb_spec (nextSequenceId st) s); [lia|reflexivity].
  - destruct (processPacket_pending st p now) as (Hp & _). now rewrite Hp.
  - intros Hk. unfold processAck. destruct (map_has _ _); simpl; [|reflexivity].
    now apply map_get_delete.
Qed.

(** What a sweep does about [s]. *)
Lemma sweep_step st now :
  wf st ->
  let r := getRetransmissions st now in
  match entry s st with
  | None =>
      entry s (after r) = None /\ with_seq s (toRetransmit r) = [] /\
      count_id s (lostReports r) = 0%nat
  | Some pd =>
      match verdict now (ackTimeout st) (maxRetries st) pd with
      | Resend =>
          entry s (after r) = Some (resent now pd) /\
          with_seq s (toRetransmit r) = [packet pd] /\
          count_id s (lostReports r) = 0%nat
      | Lose =>
          entry s (after r) = None /\ with_seq s (toRetransmit r) = [] /\
          count_id s (lostReports r) = 1%nat
      | Keep =>
          entry s (after r) = Some pd /\ with_seq s (toRetransmit r) = [] /\
          count_id s (lostReports r) = 0%nat
      end
  end.
Proof.
  intros [Hnd Hall]. cbv zeta. unfold entry.
  rewrite getRetransmissions_eq by assumption. simpl.
  apply sweep_key; [assumption|].
  eapply Forall_impl; [|exact Hall]. simpl. tauto.
Qed.

(** Once entry [s] is gone it never comes back, is never resent and is
    never reported lost. *)
Lemma run_absent ops : forall st,
  wf st -> s < nextSequenceId st -> entry s st = None ->
  entry s (after (run st ops)) = None /\
  with_seq s (toRetransmit (run st ops)) = [] /\
  count_id s (lostReports (run st ops)) = 0%nat.
Proof.
  induction ops as [|op ops IH]; intros st Hwf Hs Hnone; simpl.
  - repeat split. assumption.
  - destruct (step_inv st op Hwf) as (Hwf1 & _ & _ & Hn & _).
    assert (Hstep : entry s (after (step st op)) = None /\
                    with_seq s (toRetransmit (step st op)) = [] /\
                    count_id s (lostReports (step st op)) = 0%nat).
    { pose proof (step_frame st op Hwf Hs) as Hf.
      destruct op as [ty pl req now|p now|k|now]; simpl in *.
      - rewrite Hf. repeat split. assumption.
      - rewrite Hf. repeat split. assumption.
      - split; [|split; reflexivity].
        destruct (Z.eq_dec k s) as [->|Hk]; [|rewrite Hf; assumption].
        unfold processAck. destruct (map_has _ _); [|assumption].
        unfold entry. simpl. apply map_get_delete_same.
      - pose proof (sweep_step st now Hwf) as Hsw. cbv zeta in Hsw.
        rewrite Hnone in Hsw. exact Hsw. }
    destruct Hstep as (He & Hr & Hl).
    destruct (IH (after (step st op)) Hwf1 ltac:(lia) He) as (He2 & Hr2 & Hl2).
    unfold with_seq, count_id in *.
    rewrite !filter_app, length_app, Hr, Hr2, Hl, Hl2. repeat split. assumption.
Qed.

End RunFacts.

Section Bound.
Context {Payload : Type}.
Implicit Types (st : Protocol Payload) (op : Op Payload)
         (ops : list (Op Payload)) (pd : Pending Payload).

Variable s : Z.

Lemma run_cons st op ops :
  run st (op :: ops)
  = mkSweep (toRetransmit (step st op) ++ toRetransmit (run (after (step st op)) ops))
            (lostReports (step st op) ++ lostReports (run (after (step st op)) ops))
            (after (run (after (step st op)) ops)).
Proof. reflexivity. Qed.

(** While entry [s] is pending, unacknowledged and overdue at each of
    the next sweeps, it is resent once per sweep until its retries are
    used up, and the sweep after that drops it and reports it lost. *)
Lemma run_pending ops : forall st pd,
  wf st -> s < nextSequenceId st -> entry s st = Some pd ->
  0 <= retries pd <= maxRetries st ->
  never_acked s ops = true ->
  overdue_chain (ackTimeout st) (p_timestamp pd)
                (S (Z.to_nat (maxRetries st - retries pd))) (sweep_times ops) ->
  let r := run st ops in
  let n := Z.of_nat (length (sweep_times ops)) in
  let left := maxRetries st - retries pd in
  with_seq s (toRetransmit r) = repeat (packet pd) (Z.to_nat (Z.min n left)) /\
  count_id s (lostReports r) = (if left <? n then 1%nat else 0%nat) /\
  (left < n -> entry s (after r) = None) /\
  (n <= left ->
   exists t, entry s (after r) = Some (mkPending (packet pd) t (retries pd + n))).
Proof.
  induction ops as [|op ops IH]; intros st pd Hwf Hs He Hr Hna Hch; cbv zeta.
  - simpl. replace (Z.min 0 (maxRetries st - retries pd)) with 0 by lia.
    replace (maxRetries st - retries pd <? 0) with false
      by (symmetry; apply Z.ltb_ge; lia).
    repeat split; [lia|]. intros _. exists (p_timestamp pd).
    rewrite Z.add_0_r, He. destruct pd; reflexivity.
  - destruct (step_inv st op Hwf) as (Hwf1 & Ht & Hm & Hn & _).
    pose proof (step_frame s st op Hwf Hs) as Hf.
    assert (Hcase :
      (exists now, op = OpSweep now) \/
      (entry s (after (step st op)) = Some pd /\
       toRetransmit (step st op) = [] /\ lostReports (step st op) = [] /\
       sweep_times (op :: ops) = sweep_times ops /\
       never_acked s ops = true)).
    { destruct op as [ty pl req now|p now|k|now]; simpl in *.
      - right. rewrite Hf. auto.
      - right. rewrite Hf. auto.
      - right. apply andb_prop in Hna. destruct Hna as [Hk Hna].
        apply negb_true_iff, Z.eqb_neq in Hk. rewrite (Hf Hk). auto.
      - left. eauto. }
    destruct Hcase as [[now ->]|(He1 & Hout & Hlost & Hst & Hna1)].
    2:{ rewrite run_cons; cbn [toRetransmit lostReports after].
        rewrite Hout, Hlost, Hst; cbn [app].
        rewrite Hst in Hch.
        assert (Hr1 : 0 <= retries pd <= maxRetries (after (step st op)))
          by (rewrite Hm; exact Hr).
        rewrite <- Ht, <- Hm in Hch.
        specialize (IH (after (step st op)) pd Hwf1 ltac:(lia) He1 Hr1 Hna1 Hch).
        cbv zeta in IH. rewrite Hm in IH. exact IH. }
    clear Hf. simpl in Hch. destruct Hch as [Hover Hch].
    pose proof (sweep_step s st now Hwf) as Hsw. cbv zeta in Hsw.
    rewrite He in Hsw. unfold verdict in Hsw.
    apply Z.ltb_lt in Hover. rewrite Hover in Hsw.
    simpl in Hwf1, Ht, Hm, Hn. simpl run. simpl sweep_times. cbv zeta.
    set (r1 := getRetransmissions st now) in *.
    rewrite length_cons, Nat2Z.inj_succ.
    set (n := Z.of_nat (length (sweep_times ops))).
    assert (Hn0 : 0 <= n) by (unfold n; lia).
    unfold with_seq, count_id in *. simpl toRetransmit. simpl lostReports.
    simpl after. rewrite !filter_app, length_app.
    destruct (Z.ltb_spec (retries pd) (maxRetries st)) as [Hlt|Hge].
    + destruct Hsw as (He1 & Hres & Hlost). rewrite Hres, Hlost.
      assert (Hs1 : s < nextSequenceId (after r1)) by lia.
      destruct (IH (after r1) (resent now pd) Hwf1 Hs1 He1) as (I1 & I2 & I3 & I4).
      * simpl. lia.
      * simpl in Hna. exact Hna.
      * rewrite Ht, Hm. cbn [resent retries p_timestamp packet].
        replace (S (Z.to_nat (maxRetries st - (retries pd + 1))))
          with (Z.to_nat (maxRetries st - retries pd)) by lia.
        exact Hch.
      * rewrite Hm in *. simpl retries in *. simpl packet in *. fold n in I1, I2, I3, I4.
        rewrite I1, I2.
        repeat split.
        -- replace (Z.to_nat (Z.min (Z.succ n) (maxRetries st - retries pd)))
             with (S (Z.to_nat (Z.min n (maxRetries st - (retries pd + 1)))))
             by lia.
           reflexivity.
        -- simpl.
           destruct (Z.ltb_spec (maxRetries st - (retries pd + 1)) n);
             destruct (Z.ltb_spec (maxRetries st - retries pd) (Z.succ n));
             try reflexivity; lia.
        -- intros H. apply I3. lia.
        -- intros H. destruct I4 as [t I4]; [lia|]. exists t. rewrite I4.
           f_equal. f_equal. lia.
    + destruct Hsw as (He1 & Hres & Hlost). rewrite Hres, Hlost.
      assert (Hs1 : s < nextSequenceId (after r1)) by lia.
      destruct (run_absent s ops (after r1) Hwf1 Hs1 He1) as (A1 & A2 & A3).
      unfold with_seq, count_id in A2, A3. rewrite A2, A3.
      assert (Hz : maxRetries st - retries pd = 0) by lia. rewrite Hz.
      replace (Z.min (Z.succ n) 0) with 0 by lia.
      replace (0 <? Z.succ n) with true by (symmetry; apply Z.ltb_lt; lia).
      repeat split; try (intros _; exact A1). intros H. lia.
Qed.

End Bound.

Section Claims.
Context {Payload : Type}.
Implicit Types (st : Protocol Payload) (p : Packet Payload)
         (ops : list (Op Payload)).

Lemma createPacket_entry st ty pl now :
  entry (nextSequenceId st) (snd (createPacket st ty pl true now))
  = Some (mkPending (fst (createPacket st ty pl true now)) now 0).
Proof.
  unfold entry, createPacket. simpl. rewrite map_get_set.
  now rewrite Z.eqb_refl.
Qed.

Lemma entry_has s st :
  map_has s (pendingAcks st) = match entry s st with Some _ => true | None => false end.
Proof.
  unfold entry. destruct (map_get s (pendingAcks st)) as [pd|] eqn:E.
  - apply map_has_in. eapply map_get_present; eauto.
  - destruct (map_has s (pendingAcks st)) eqn:H; [|reflexivity].
    apply map_has_in in H. revert E H.
    induction (pendingAcks st) as [|[k v] m IH]; simpl; [tauto|].
    destruct (Z.eqb_spec k s); [discriminate|]. intros E [H|H]; [contradiction|auto].
Qed.

(** C5: a packet created with [requiresAck] that is never acknowledged
    and is overdue at each of the next [maxRetries + 1] sweeps is
    returned by the sweeps of any run exactly
    [min (number of sweeps) maxRetries] times -- once by each of the
    first [maxRetries] sweeps and never again.  Up to [maxRetries]
    sweeps it is still pending and not reported lost; from the next
    sweep on its entry is gone and it has been reported lost exactly
    once, each report counting one in [packetsLost]. *)
Theorem retransmission_bound st0 ty pl t0 ops :
  wf st0 -> 0 <= maxRetries st0 ->
  never_acked (nextSequenceId st0) ops = true ->
  overdue_chain (ackTimeout st0) t0 (S (Z.to_nat (maxRetries st0)))
                (sweep_times ops) ->
  let p := fst (createPacket st0 ty pl true t0) in
  let r := run (snd (createPacket st0 ty pl true t0)) ops in
  let n := Z.of_nat (length (sweep_times ops)) in
  sequenceId p = nextSequenceId st0 /\
  with_seq (sequenceId p) (toRetransmit r)
  = repeat p (Z.to_nat (Z.min n (maxRetries st0))) /\
  (n <= maxRetries st0 ->
   map_has (sequenceId p) (pendingAcks (after r)) = true /\
   count_id (sequenceId p) (lostReports r) = 0%nat) /\
  (maxRetries st0 < n ->
   map_has (sequenceId p) (pendingAcks (after r)) = false /\
   count_id (sequenceId p) (lostReports r) = 1%nat) /\
  packetsLost (after r) = packetsLost st0 + Z.of_nat (length (lostReports r)).
Proof.
  intros Hwf HM Hna Hch. cbv zeta.
  set (st1 := snd (createPacket st0 ty pl true t0)).
  set (p := fst (createPacket st0 ty pl true t0)).
  set (s := nextSequenceId st0) in *.
  assert (Hp : sequenceId p = s) by reflexivity.
  assert (Hwf1 : wf st1) by now apply createPacket_wf.
  assert (Hcfg : ackTimeout st1 = ackTimeout st0 /\ maxRetries st1 = maxRetries st0
                 /\ nextSequenceId st1 = s + 1 /\ packetsLost st1 = packetsLost st0)
    by (repeat split).
  destruct Hcfg as (Ht & Hm & Hn & Hl).
  pose proof (createPacket_entry st0 ty pl t0) as He. fold st1 p s in He.
  destruct (run_pending s ops st1 _ Hwf1 ltac:(lia) He) as (R1 & R2 & R3 & R4).
  { simpl. lia. }
  { exact Hna. }
  { rewrite Ht, Hm. simpl. rewrite Z.sub_0_r. exact Hch. }
  rewrite Hm in *. simpl retries in *. simpl packet in *.
  rewrite Z.sub_0_r in *.
  destruct (run_inv ops st1 Hwf1) as (_ & _ & _ & _ & Hlost).
  rewrite Hp. rewrite !entry_has. split; [reflexivity|]. split; [exact R1|].
  split; [|split].
  - intros Hle. destruct (R4 Hle) as [t R4']. rewrite R4'.
    split; [reflexivity|]. rewrite R2.
    destruct (Z.ltb_spec (maxRetries st0) (Z.of_nat (length (sweep_times ops))));
      [lia|reflexivity].
  - intros Hlt. rewrite (R3 Hlt). split; [reflexivity|]. rewrite R2.
    destruct (Z.ltb_spec (maxRetries st0) (Z.of_nat (length (sweep_times ops))));
      [reflexivity|lia].
  - rewrite Hlost, Hl. reflexivity.
Qed.

(** Every instance reached from the constructor satisfies the table
    invariant. *)
Lemma reachable_wf ops : wf (after (run (@new Payload) ops)).
Proof. apply run_inv. split; constructor. Qed.

Lemma set_has_add k (seen : list Z) : set_has k (set_add k seen) = true.
Proof.
  unfold set_add. destruct (set_has k seen) eqn:E; [exact E|].
  unfold set_has. rewrite existsb_app. simpl. rewrite Z.eqb_refl.
  now rewrite orb_true_r.
Qed.

(** Below the trimming cap, a packet that has just been processed is in
    the seen-set, so its second arrival is a duplicate. *)
Lemma first_arrival_is_recorded st p now :
  (length (receivedSequences st) < 1000)%nat ->
  set_has (sequenceId p) (receivedSequences (snd (processPacket st p now))) = true.
Proof.
  intros Hlen. unfold processPacket.
  destruct (set_has (sequenceId p) (receivedSequences st)) eqn:Hseen;
    [exact Hseen|].
  assert (Htrim : trim_received (set_add (sequenceId p) (receivedSequences st))
                  = set_add (sequenceId p) (receivedSequences st)).
  { unfold trim_received.
    destruct (Nat.ltb_spec 1000 (length (set_add (sequenceId p) (receivedSequences st))))
      as [Hbig|_]; [|reflexivity].
    unfold set_add in Hbig. rewrite Hseen, length_app in Hbig. simpl in Hbig. lia. }
  destruct (requiresAck p); simpl; rewrite Htrim; apply set_has_add.
Qed.

(** C4, amended: for every packet whose sequence id is already in the
    seen-set, [processPacket] changes nothing in the receiver and
    returns null: no payload is delivered and no ack packet is produced,
    whether or not the packet requires one. *)
Theorem duplicate_is_dropped st p now :
  set_has (sequenceId p) (receivedSequences st) = true ->
  processPacket st p now = (None, st).
Proof. intros Hseen. unfold processPacket. now rewrite Hseen. Qed.

End Claims.

Lemma wf_new {Payload} : wf (@new Payload).
Proof. split; constructor. Qed.

(** The default instance sends one input packet at time 0 and sweeps at
    101, 202, 303, 404 and 405, among other calls: three resends, then
    the loss. *)
Lemma retransmission_bound_witness :
  let ops := [OpSweep 101; OpCreate CLIENT_INPUT tt true 150; OpSweep 202;
              OpAck 1; OpSweep 303; OpProcess (mkPacket SERVER_ACK 9 tt false 0) 350;
              OpSweep 404; OpSweep 405] in
  let p := fst (createPacket new CLIENT_INPUT tt true 0) in
  let r := run (snd (createPacket new CLIENT_INPUT tt true 0)) ops in
  (wf (@new unit) /\ 0 <= maxRetries (@new unit) /\
   never_acked (nextSequenceId (@new unit)) ops = true /\
   overdue_chain (ackTimeout (@new unit)) 0
                 (S (Z.to_nat (maxRetries (@new unit)))) (sweep_times ops)) /\
  with_seq (sequenceId p) (toRetransmit r) = [p; p; p] /\
  map_has (sequenceId p) (pendingAcks (after r)) = false /\
  count_id (sequenceId p) (lostReports r) = 1%nat /\
  packetsLost (after r) = 1.
Proof.
  intros ops p r.
  assert (H : wf (@new unit) /\ 0 <= maxRetries (@new unit) /\
              never_acked (nextSequenceId (@new unit)) ops = true /\
              overdue_chain (ackTimeout (@new unit)) 0
                            (S (Z.to_nat (maxRetries (@new unit)))) (sweep_times ops)).
  { split; [apply wf_new|]. split; [simpl; lia|]. split; [reflexivity|].
    simpl. repeat split; lia. }
  split; [exact H|].
  destruct H as (H1 & H2 & H3 & H4).
  destruct (retransmission_bound new CLIENT_INPUT tt 0 ops H1 H2 H3 H4)
    as (_ & W1 & _ & W2 & W3).
  split; [exact W1|].
  destruct W2 as [W2 W2']; [simpl; lia|].
  split; [exact W2|]. split; [exact W2'|]. exact W3.
Defined.

(** C4 as stated fails: the second arrival of a packet that requires an
    acknowledgment returns null, so no ack packet is produced again. *)
Lemma duplicate_gets_no_ack :
  let p := mkPacket CLIENT_INPUT 7 tt true 1000 in
  let first := processPacket new p 1020 in
  let second := processPacket (snd first) p 1040 in
  requiresAck p = true /\
  fst first = Some (mkProcessed tt (Some (createAck 7 1020))) /\
  set_has (sequenceId p) (receivedSequences (snd first)) = true /\
  fst second = None /\
  snd second = snd first.
Proof. cbv zeta. repeat split. Qed.

Lemma duplicate_is_dropped_witness :
  let p := mkPacket CLIENT_INPUT 7 tt true 1000 in
  let st := snd (processPacket new p 1020) in
  set_has (sequenceId p) (receivedSequences st) = true /\
  processPacket st p 1040 = (None, st).
Proof.
  intros p st. split; [reflexivity|].
  exact (duplicate_is_dropped st p 1040 eq_refl).
Defined.

End NetworkProtocolFacts.

(** ** TimeSync *)

Module TimeSyncFacts.

Import JS TimeSync.
Open Scope float_scope.

(** *** The request counter *)

Lemma updateClockDrift_syncCount s o now :
  syncCount (updateClockDrift s o now) = syncCount s.
Proof. unfold updateClockDrift. destruct (gt _ _); reflexivity. Qed.

Lemma updateClockOffset_syncCount s o :
  syncCount (updateClockOffset s o) = syncCount s.
Proof. unfold updateClockOffset. destruct (is_zero_number _); reflexivity. Qed.

(** [processSyncResponse] never touches [syncCount]. *)
Lemma processSyncResponse_syncCount s r t now :
  syncCount (processSyncResponse s r t now) = syncCount s.
Proof.
  unfold processSyncResponse. rewrite updateClockDrift_syncCount. simpl.
  now rewrite updateClockOffset_syncCount.
Qed.

(** [createSyncRequest] adds one to it. *)
Lemma createSyncRequest_syncCount s now :
  syncCount (snd (createSyncRequest s now)) = (syncCount s + 1)%Z.
Proof. reflexivity. Qed.

(** After any run, [syncCount] has grown by the number of requests
    created. *)
Lemma run_syncCount ops : forall s,
  syncCount (run s ops) = (syncCount s + Z.of_nat (requests_created ops))%Z.
Proof.
  unfold run, requests_created.
  induction ops as [|op ops IH]; intros s; simpl; [lia|].
  rewrite IH. destruct op as [now|r t now]; simpl.
  - lia.
  - rewrite processSyncResponse_syncCount. reflexivity.
Qed.

(** *** Reliability *)

(** C6 as stated fails in both directions: four requests sent and no
    response processed make the sync reliable, and four good samples
    processed without a request created here do not. *)
Lemma reliability_ignores_samples :
  let s0 := new (mkConfig None None None) 0 in
  let requests := [OpRequest 1000; OpRequest 2000; OpRequest 3000; OpRequest 4000] in
  let good := mkResponse 1000 1020 1020 3 0 in
  let responses := [OpResponse good 1040 1040; OpResponse good 1040 1040;
                    OpResponse good 1040 1040; OpResponse good 1040 1040] in
  (samples_collected requests = 0%nat /\
   isSyncReliable (run s0 requests) = true) /\
  (samples_collected responses = 4%nat /\
   gt (calculateQuality (run s0 responses)) 0.5 = true /\
   isSyncReliable (run s0 responses) = false).
Proof. cbv zeta. repeat split. Qed.

(** C6, amended: [isSyncReliable] returns true if and only if the quality
    score exceeds 0.5 and [syncCount] exceeds 3, where [syncCount] is the
    number of sync requests created by [createSyncRequest] on this
    instance -- at least 4 requests sent, whatever number of responses has
    been processed. *)
Theorem isSyncReliable_iff (config : Config) (t0 : float) (ops : list Op) :
  let s := run (new config t0) ops in
  syncCount s = Z.of_nat (requests_created ops) /\
  (isSyncReliable s = true <->
   gt (calculateQuality s) 0.5 = true /\ (4 <= requests_created ops)%nat).
Proof.
  cbv zeta. pose proof (run_syncCount ops (new config t0)) as Hc.
  simpl in Hc. split; [exact Hc|].
  unfold isSyncReliable. rewrite Hc, andb_true_iff, Z.ltb_lt.
  split; intros [Hq Hn]; (split; [exact Hq|lia]).
Qed.

(** *** Offset blending *)

Lemma updateRttStats_clockOffset s rtt :
  clockOffset (updateRttStats s rtt) = clockOffset s.
Proof. reflexivity. Qed.

Lemma updateClockDrift_clockOffset s o now :
  clockOffset (updateClockDrift s o now) = clockOffset s.
Proof. unfold updateClockDrift. destruct (gt _ _); reflexivity. Qed.

(** The offset after a response is the one [updateClockOffset] computes
    from the raw sample. *)
Lemma processSyncResponse_clockOffset s r t now :
  clockOffset (processSyncResponse s r t now)
  = clockOffset (updateClockOffset s (rawOffset r t)).
Proof.
  unfold processSyncResponse. rewrite updateClockDrift_clockOffset. simpl.
  unfold updateClockOffset. rewrite updateRttStats_clockOffset.
  destruct (is_zero_number _); reflexivity.
Qed.

(** The first sample of a fresh instance is taken as it is. *)
Lemma first_sample_accepted config t0 r t now :
  clockOffset (processSyncResponse (new config t0) r t now) = rawOffset r t.
Proof. rewrite processSyncResponse_clockOffset. reflexivity. Qed.

(** A sample that meets a nonzero offset is blended in, with factor 0.5
    beyond 50 ms and 0.1 otherwise. *)
Lemma nonzero_offset_blended s r t now :
  is_zero_number (clockOffset s) = false ->
  clockOffset (processSyncResponse s r t now)
  = blended (clockOffset s) (rawOffset r t).
Proof.
  intros Hnz. rewrite processSyncResponse_clockOffset.
  unfold updateClockOffset. rewrite Hnz. reflexivity.
Qed.

(** A sample that meets an offset of exactly zero is taken as it is, first
    sample or not. *)
Lemma zero_offset_replaced s r t now :
  is_zero_number (clockOffset s) = true ->
  clockOffset (processSyncResponse s r t now) = rawOffset r t.
Proof.
  intros Hz. rewrite processSyncResponse_clockOffset.
  unfold updateClockOffset. rewrite Hz. reflexivity.
Qed.

(** C7 fails on the code: when the first sample measures an offset of
    exactly 0 ms, the second sample (100 ms) is assigned outright instead
    of being blended to 50 ms. *)
Theorem second_sample_not_blended :
  let s0 := new (mkConfig None None None) 0 in
  let r1 := mkResponse 1000 1050 1050 3 0 in
  let s1 := processSyncResponse s0 r1 1100 1100 in
  let r2 := mkResponse 2000 1950 1950 63 1 in
  let s2 := processSyncResponse s1 r2 2100 2100 in
  rawOffset r1 1100 = 0 /\
  clockOffset s1 = 0 /\
  rawOffset r2 2100 = 100 /\
  blended (clockOffset s1) (rawOffset r2 2100) = 50 /\
  clockOffset s2 = 100.
Proof. cbv zeta. repeat split. Qed.

End TimeSyncFacts.

(** * Further properties *)

(** ** ClientPrediction along runs *)

Module ClientPredictionRuns.

Import JS ClientPrediction ClientPredictionFacts.
Open Scope Z_scope.

(** *** The input buffer along a run *)

Lemma StronglySorted_snoc (l : list Buffered) (b : Buffered) :
  StronglySorted tick_before l ->
  Forall (fun a => tick_before a b) l ->
  StronglySorted tick_before (l ++ [b]).
Proof.
  induction 1 as [|a l Hl IH Ha]; intros Hb; simpl.
  - repeat constructor.
  - inversion Hb as [|? ? Hab Hb']; subst.
    constructor; [auto|].
    apply Forall_app. split; [assumption|]. repeat constructor. assumption.
Qed.

Lemma StronglySorted_filter (f : Buffered -> bool) (l : list Buffered) :
  StronglySorted tick_before l -> StronglySorted tick_before (filter f l).
Proof.
  induction 1 as [|a l Hl IH Ha]; simpl; [constructor|].
  destruct (f a); [|assumption].
  constructor; [assumption|].
  apply Forall_forall. intros b Hb. apply filter_In in Hb.
  rewrite Forall_forall in Ha. apply Ha. tauto.
Qed.

Lemma applyInput_ordered c input n1 n2 :
  0 <= clientTick c -> buffer_ordered c ->
  buffer_ordered (applyInput c input n1 n2).
Proof.
  intros H0 [Hs Hb]. split; simpl.
  - apply StronglySorted_snoc; [assumption|].
    eapply Forall_impl; [|exact Hb]. unfold tick_before. simpl. intros a Ha. lia.
  - apply Forall_app. split.
    + eapply Forall_impl; [|exact Hb]. simpl. intros a Ha. lia.
    + repeat constructor; simpl; lia.
Qed.

Lemma onServerSnapshot_clientTick c snapshot :
  clientTick (onServerSnapshot c snapshot) = clientTick c.
Proof. unfold onServerSnapshot. destruct (gt _ _); reflexivity. Qed.

Lemma onServerSnapshot_sent c snapshot :
  sent (onServerSnapshot c snapshot) = sent c.
Proof. unfold onServerSnapshot. destruct (gt _ _); reflexivity. Qed.

Lemma onServerSnapshot_ordered c snapshot :
  buffer_ordered c -> buffer_ordered (onServerSnapshot c snapshot).
Proof.
  intros [Hs Hb]. unfold buffer_ordered.
  rewrite onServerSnapshot_inputBuffer, onServerSnapshot_clientTick. split.
  - now apply StronglySorted_filter.
  - apply Forall_forall. intros b Hin. apply filter_In in Hin.
    rewrite Forall_forall in Hb. apply Hb. tauto.
Qed.

Lemma play_ordered events : forall c,
  0 <= clientTick c -> buffer_ordered c ->
  0 <= clientTick (play c events) /\ buffer_ordered (play c events).
Proof.
  unfold play. induction events as [|e events IH]; intros c H0 Hc; simpl; [auto|].
  apply IH.
  - destruct e; cbn [handle]; [simpl; lia|]. now rewrite onServerSnapshot_clientTick.
  - destruct e; cbn [handle];
      [now apply applyInput_ordered|now apply onServerSnapshot_ordered].
Qed.

(** X1: after any sequence of [applyInput] and [onServerSnapshot] calls on a
    new client, the input buffer is ordered by strictly increasing tick
    (so it has no duplicate tick) and every buffered tick lies in
    [0, clientTick). *)
Theorem buffer_stays_ordered (events : list Event) :
  let c := play new events in
  StronglySorted tick_before (inputBuffer c) /\
  Forall (fun b => 0 <= b_tick b < clientTick c) (inputBuffer c).
Proof.
  cbv zeta. apply (play_ordered events new).
  - simpl. lia.
  - split; constructor.
Qed.

(** *** What is sent along a run *)

Lemma play_sent events : forall c,
  clientTick (play c events)
  = clientTick c + Z.of_nat (length (inputs_of events)) /\
  sent (play c events)
  = sent c ++ messages_from (clientTick c) (inputs_of events).
Proof.
  unfold play. induction events as [|e events IH]; intros c; simpl.
  - rewrite app_nil_r. split; [lia|reflexivity].
  - destruct (IH (handle c e)) as [IH1 IH2]. rewrite IH1, IH2. clear IH IH1 IH2.
    destruct e as [k|s]; cbn [handle inputs_of length messages_from].
    + simpl. split; [lia|]. now rewrite <- app_assoc.
    + rewrite onServerSnapshot_clientTick, onServerSnapshot_sent. split; reflexivity.
Qed.

Lemma messages_from_ticks calls : forall t,
  map m_tick (messages_from t calls)
  = map (fun i => t + Z.of_nat i) (seq 0 (length calls)) /\
  map m_input (messages_from t calls) = map call_input calls.
Proof.
  induction calls as [|k calls IH]; intros t; simpl; [split; reflexivity|].
  destruct (IH (t + 1)) as [IH1 IH2]. rewrite IH1, IH2. split; [|reflexivity].
  f_equal; [lia|]. rewrite <- seq_shift, map_map.
  apply map_ext. intros i. lia.
Qed.

(** X2: on a new client, whatever snapshots arrive in between, the client
    tick equals the number of [applyInput] calls made, and exactly one
    message per call has been sent, in call order, the i-th carrying tick
    [i] and that call's input. *)
Theorem one_message_per_input (events : list Event) :
  let c := play new events in
  let calls := inputs_of events in
  clientTick c = Z.of_nat (length calls) /\
  sent c = messages_from 0 calls /\
  map m_tick (sent c) = map Z.of_nat (seq 0 (length calls)) /\
  map m_input (sent c) = map call_input calls.
Proof.
  cbv zeta. destruct (play_sent events new) as [Ht Hs]. simpl in Ht, Hs.
  destruct (messages_from_ticks (inputs_of events) 0) as [M1 M2].
  rewrite Hs, M1, M2. repeat split; assumption.
Qed.

(** *** Pruning *)

(** X3: two snapshots in a row prune the buffer to the entries newer than
    the larger of their ticks, in either order of arrival: an older
    snapshot arriving late never brings an entry back. *)
Theorem pruning_composes (c : Client) (s1 s2 : State) (T1 T2 : Z) :
  tick s1 = Some T1 -> tick s2 = Some T2 ->
  inputBuffer (onServerSnapshot (onServerSnapshot c s1) s2)
  = filter (fun b => Z.max T1 T2 <? b_tick b) (inputBuffer c).
Proof.
  intros H1 H2. rewrite !onServerSnapshot_inputBuffer.
  induction (inputBuffer c) as [|b l IH]; simpl; [reflexivity|].
  unfold after_tick at 2. rewrite H1.
  destruct (Z.ltb_spec T1 (b_tick b)) as [Hlt|Hge]; simpl.
  - unfold after_tick at 1. rewrite H2.
    destruct (Z.ltb_spec T2 (b_tick b)); destruct (Z.ltb_spec (Z.max T1 T2) (b_tick b));
      try lia; now rewrite IH.
  - destruct (Z.ltb_spec (Z.max T1 T2) (b_tick b)); try lia. exact IH.
Qed.

Lemma pruning_composes_witness :
  let c := applyInputs new [mkInputCall (mkInput 1 0) 0 0;
                            mkInputCall (mkInput 1 0) 16 16;
                            mkInputCall (mkInput 0 1) 33 33;
                            mkInputCall (mkInput 0 1) 50 50] in
  let s1 := mkState 10 0 5 0 (Some 2) in
  let s2 := mkState 5 0 5 0 (Some 0) in
  tick s1 = Some 2 /\ tick s2 = Some 0 /\
  map b_tick (inputBuffer (onServerSnapshot (onServerSnapshot c s1) s2)) = [3] /\
  inputBuffer (onServerSnapshot (onServerSnapshot c s1) s2)
  = filter (fun b => Z.max 2 0 <? b_tick b) (inputBuffer c).
Proof.
  intros c s1 s2. split; [reflexivity|]. split; [reflexivity|].
  split; [reflexivity|].
  exact (pruning_composes c s1 s2 2 0 eq_refl eq_refl).
Defined.

(** X4: a snapshot that carries no [tick] acknowledges everything: the
    whole input buffer is dropped, whichever branch runs, and on the
    rollback branch nothing is replayed, so the predicted state becomes the
    snapshot itself. *)
Theorem tickless_snapshot_drops_buffer (c : Client) (snapshot : State) :
  tick snapshot = None ->
  inputBuffer (onServerSnapshot c snapshot) = [] /\
  (gt (calculateDivergence (predictedState c) snapshot)
      (reconciliationThreshold c) = true ->
   predictedState (onServerSnapshot c snapshot) = snapshot).
Proof.
  intros Hnone.
  assert (Hf : forall l, filter (after_tick snapshot) l = []).
  { induction l as [|b l IH]; simpl; [reflexivity|].
    unfold after_tick at 1. now rewrite Hnone. }
  split.
  - rewrite onServerSnapshot_inputBuffer. apply Hf.
  - intros Hgt. rewrite (onServerSnapshot_rollback _ _ Hgt), Hf. reflexivity.
Qed.

Lemma tickless_snapshot_drops_buffer_witness :
  let c := applyInputs new [mkInputCall (mkInput 1 0) 0 0;
                            mkInputCall (mkInput 1 0) 16 16] in
  let snapshot := mkState 3 4 0 0 None in
  tick snapshot = None /\
  length (inputBuffer c) = 2%nat /\
  inputBuffer (onServerSnapshot c snapshot) = [] /\
  predictedState (onServerSnapshot c snapshot) = snapshot.
Proof.
  intros c snapshot. split; [reflexivity|]. split; [reflexivity|].
  destruct (tickless_snapshot_drops_buffer c snapshot eq_refl) as [W1 W2].
  split; [exact W1|]. apply W2. reflexivity.
Defined.

(** X5: when the snapshot's tick is at least the tick of every buffered
    input and the divergence exceeds the threshold, the rollback replays
    nothing: the predicted state is exactly the snapshot (a hard snap) and
    the buffer is left empty. *)
Theorem rollback_snaps_when_all_acknowledged (c : Client) (snapshot : State) (T : Z) :
  tick snapshot = Some T ->
  Forall (fun b => b_tick b <= T) (inputBuffer c) ->
  gt (calculateDivergence (predictedState c) snapshot)
     (reconciliationThreshold c) = true ->
  predictedState (onServerSnapshot c snapshot) = snapshot /\
  inputBuffer (onServerSnapshot c snapshot) = [].
Proof.
  intros HT Hall Hgt.
  assert (Hf : filter (after_tick snapshot) (inputBuffer c) = []).
  { induction Hall as [|b l Hb _ IH]; simpl; [reflexivity|].
    unfold after_tick at 1. rewrite HT.
    destruct (Z.ltb_spec T (b_tick b)); [lia|exact IH]. }
  split.
  - rewrite (onServerSnapshot_rollback _ _ Hgt), Hf. reflexivity.
  - rewrite onServerSnapshot_inputBuffer. exact Hf.
Qed.

Lemma rollback_snaps_when_all_acknowledged_witness :
  let c := applyInputs new [mkInputCall (mkInput 1 0) 0 0;
                            mkInputCall (mkInput 1 0) 16 16] in
  let snapshot := mkState 5 0 0 0 (Some 2) in
  tick snapshot = Some 2 /\
  Forall (fun b => b_tick b <= 2) (inputBuffer c) /\
  gt (calculateDivergence (predictedState c) snapshot)
     (reconciliationThreshold c) = true /\
  predictedState (onServerSnapshot c snapshot) = snapshot /\
  inputBuffer (onServerSnapshot c snapshot) = [].
Proof.
  intros c snapshot.
  assert (Hall : Forall (fun b => b_tick b <= 2) (inputBuffer c))
    by (repeat constructor; simpl; lia).
  split; [reflexivity|]. split; [exact Hall|]. split; [reflexivity|].
  exact (rollback_snaps_when_all_acknowledged c snapshot 2 eq_refl Hall eq_refl).
Defined.

(** *** Prediction after a rollback *)

Lemma replay_app s l1 l2 : replay s (l1 ++ l2) = replay (replay s l1) l2.
Proof. unfold replay. apply fold_left_app. Qed.

Lemma applyInput_caught_up c input n1 n2 :
  caught_up c -> caught_up (applyInput c input n1 n2).
Proof.
  unfold caught_up. intros H. simpl.
  rewrite map_app, replay_app, <- H. reflexivity.
Qed.

Lemma onServerSnapshot_serverState c snapshot :
  serverState (onServerSnapshot c snapshot) = snapshot.
Proof. unfold onServerSnapshot. destruct (gt _ _); reflexivity. Qed.

(** X6: a rollback leaves the client caught up -- the predicted state is
    the stored authoritative state with the whole input buffer replayed on
    it -- and every [applyInput] made afterwards keeps it so. *)
Theorem caught_up_after_rollback (c : Client) (snapshot : State)
        (calls : list InputCall) :
  gt (calculateDivergence (predictedState c) snapshot)
     (reconciliationThreshold c) = true ->
  let c' := applyInputs (onServerSnapshot c snapshot) calls in
  serverState c' = snapshot /\
  predictedState c' = replay snapshot (map b_input (inputBuffer c')).
Proof.
  intros Hgt. cbv zeta.
  assert (H0 : caught_up (onServerSnapshot c snapshot)).
  { unfold caught_up.
    rewrite onServerSnapshot_serverState, onServerSnapshot_inputBuffer.
    now apply onServerSnapshot_rollback. }
  pose proof (onServerSnapshot_serverState c snapshot) as Hs.
  revert H0 Hs. generalize (onServerSnapshot c snapshot) as c0.
  unfold applyInputs.
  induction calls as [|k calls IH]; intros c0 H0 Hs; simpl.
  - split; [exact Hs|]. unfold caught_up in H0. now rewrite <- Hs.
  - apply IH; [now apply applyInput_caught_up|exact Hs].
Qed.

Lemma caught_up_after_rollback_witness :
  let c := applyInputs new [mkInputCall (mkInput 1 0) 0 0;
                            mkInputCall (mkInput 1 0) 16 16] in
  let snapshot := mkState 4 0 5 0 (Some 0) in
  let c' := applyInputs (onServerSnapshot c snapshot)
                        [mkInputCall (mkInput 0 1) 33 33] in
  gt (calculateDivergence (predictedState c) snapshot)
     (reconciliationThreshold c) = true /\
  map b_tick (inputBuffer c') = [1; 2] /\
  serverState c' = snapshot /\
  predictedState c' = replay snapshot (map b_input (inputBuffer c')).
Proof.
  intros c snapshot c'. split; [reflexivity|]. split; [reflexivity|].
  exact (caught_up_after_rollback c snapshot [mkInputCall (mkInput 0 1) 33 33] eq_refl).
Defined.

End ClientPredictionRuns.

(** ** NetworkProtocol along runs *)

Module NetworkProtocolRuns.

Import NetworkProtocol NetworkProtocolFacts.
Open Scope Z_scope.

Section Sweeps.
Context {Payload : Type}.
Implicit Types (st : Protocol Payload) (acc : Sweep Payload)
         (entries : list (Z * Pending Payload)) (ops : list (Op Payload)).

(** The loop never touches the sequence counter, the seen-set or the
    configuration. *)
Lemma sweep_entries_frame now entries : forall acc,
  nextSequenceId (after (sweep_entries now entries acc)) = nextSequenceId (after acc) /\
  receivedSequences (after (sweep_entries now entries acc))
  = receivedSequences (after acc) /\
  maxRetries (after (sweep_entries now entries acc)) = maxRetries (after acc) /\
  ackTimeout (after (sweep_entries now entries acc)) = ackTimeout (after acc).
Proof.
  induction entries as [|[k pd] rest IH]; intros acc; simpl; [repeat split|].
  destruct (ackTimeout (after acc) <? now - p_timestamp pd); [|apply IH].
  destruct (retries pd <? maxRetries (after acc));
    match goal with |- context [sweep_entries now rest ?a] =>
      destruct (IH a) as (H1 & H2 & H3 & H4); rewrite H1, H2, H3, H4 end;
    repeat split.
Qed.

Lemma sweep_entries_all_fresh now entries : forall acc,
  Forall (fun e => now - p_timestamp (snd e) <= ackTimeout (after acc)) entries ->
  sweep_entries now entries acc = acc.
Proof.
  induction entries as [|[k pd] rest IH]; intros a Hall; simpl; [reflexivity|].
  inversion Hall as [|? ? Hh Hr]; subst. simpl in Hh.
  destruct (Z.ltb_spec (ackTimeout (after a)) (now - p_timestamp pd)); [lia|].
  now apply IH.
Qed.

(** X7: a sweep made while no pending entry is older than [ackTimeout]
    returns nothing and changes nothing. *)
Theorem sweep_before_timeout_is_noop st now :
  Forall (fun e => now - p_timestamp (snd e) <= ackTimeout st) (pendingAcks st) ->
  getRetransmissions st now = mkSweep [] [] st.
Proof.
  intros Hall. unfold getRetransmissions.
  now apply sweep_entries_all_fresh.
Qed.

Lemma verdict_cases now T M (pd : Pending Payload) :
  verdict now T M pd
  = if (T <? now - p_timestamp pd) && (retries pd <? M) then Resend
    else if (T <? now - p_timestamp pd) && negb (retries pd <? M) then Lose
    else Keep.
Proof.
  unfold verdict. destruct (T <? now - p_timestamp pd), (retries pd <? M); reflexivity.
Qed.

Lemma resent_of_filter now T M entries :
  resent_of now T M entries
  = map (fun e => packet (snd e)) (filter (due_resend now T M) entries).
Proof.
  induction entries as [|[k pd] rest IH]; simpl; [reflexivity|].
  rewrite verdict_cases. unfold due_resend at 1. simpl.
  destruct ((T <? now - p_timestamp pd) && (retries pd <? M)) eqn:E1; simpl;
    [now rewrite IH|].
  destruct ((T <? now - p_timestamp pd) && negb (retries pd <? M)); exact IH.
Qed.

Lemma lost_of_filter now T M entries :
  lost_of now T M entries = map fst (filter (due_loss now T M) entries).
Proof.
  induction entries as [|[k pd] rest IH]; simpl; [reflexivity|].
  rewrite verdict_cases. unfold due_loss at 1. simpl.
  destruct (T <? now - p_timestamp pd), (retries pd <? M); simpl;
    rewrite ?IH; reflexivity.
Qed.

Lemma kept_of_keys now T M entries :
  map fst (kept_of now T M entries)
  = map fst (filter (fun e => negb (due_loss now T M e)) entries).
Proof.
  induction entries as [|[k pd] rest IH]; simpl; [reflexivity|].
  rewrite verdict_cases. unfold due_loss at 1. simpl.
  destruct (T <? now - p_timestamp pd), (retries pd <? M); simpl;
    rewrite ?IH; reflexivity.
Qed.

(** X8: on a table with unique keys, a sweep returns exactly the packets of
    the entries that are overdue and have retries left, in table order;
    it reports lost exactly the overdue entries without retries left, and
    removes those and no others from the table. *)
Theorem sweep_selects_overdue st now :
  NoDup (map fst (pendingAcks st)) ->
  let r := getRetransmissions st now in
  let T := ackTimeout st in
  let M := maxRetries st in
  toRetransmit r
  = map (fun e => packet (snd e)) (filter (due_resend now T M) (pendingAcks st)) /\
  lostReports r = map fst (filter (due_loss now T M) (pendingAcks st)) /\
  map fst (pendingAcks (after r))
  = map fst (filter (fun e => negb (due_loss now T M e)) (pendingAcks st)).
Proof.
  intros Hnd. cbv zeta. rewrite getRetransmissions_eq by assumption. simpl.
  rewrite resent_of_filter, lost_of_filter, kept_of_keys. repeat split.
Qed.

Lemma sweep_lengths now T M entries :
  (length (kept_of now T M entries) + length (lost_of now T M entries)
   = length entries)%nat /\
  (length (resent_of now T M entries) <= length (kept_of now T M entries))%nat.
Proof.
  induction entries as [|[k pd] rest IH]; simpl; [split; lia|].
  destruct (verdict now T M pd); simpl; lia.
Qed.

(** X9: a sweep conserves entries: every pending entry is either still
    pending afterwards or counted once in [packetsLost]; and it never
    returns more packets than remain pending. *)
Theorem sweep_conserves_entries st now :
  NoDup (map fst (pendingAcks st)) ->
  let r := getRetransmissions st now in
  packetsLost (after r) + Z.of_nat (length (pendingAcks (after r)))
  = packetsLost st + Z.of_nat (length (pendingAcks st)) /\
  (length (toRetransmit r) <= length (pendingAcks (after r)))%nat.
Proof.
  intros Hnd. cbv zeta. rewrite getRetransmissions_eq by assumption. simpl.
  pose proof (sweep_lengths now (ackTimeout st) (maxRetries st) (pendingAcks st)).
  lia.
Qed.

End Sweeps.

Section Ids.
Context {Payload : Type}.
Implicit Types (st : Protocol Payload) (ops : list (Op Payload))
         (p : Packet Payload).

Lemma step_nextSequenceId st op :
  nextSequenceId (after (step st op))
  = nextSequenceId st
    + match op with OpCreate _ _ _ _ => 1 | _ => 0 end.
Proof.
  destruct op as [ty pl req now|p now|k|now]; simpl.
  - unfold createPacket. destruct req; reflexivity.
  - destruct (processPacket_pending st p now) as (_ & Hn & _). rewrite Hn. lia.
  - unfold processAck. destruct (map_has _ _); simpl; lia.
  - unfold getRetransmissions.
    destruct (sweep_entries_frame now (pendingAcks st) (mkSweep [] [] st)) as (Hn & _).
    rewrite Hn. simpl. lia.
Qed.

Lemma created_ids ops : forall st,
  map sequenceId (created st ops)
  = map (fun i => nextSequenceId st + Z.of_nat i) (seq 0 (length (created st ops))) /\
  nextSequenceId (after (run st ops))
  = nextSequenceId st + Z.of_nat (length (created st ops)).
Proof.
  induction ops as [|op ops IH]; intros st; simpl; [split; [reflexivity|lia]|].
  destruct (IH (after (step st op))) as [IH1 IH2].
  rewrite map_app, length_app, IH1, IH2, step_nextSequenceId. clear IH IH1 IH2.
  destruct op as [ty pl req now|p now|k|now]; simpl;
    rewrite ?Z.add_0_r; try (split; [reflexivity|lia]).
  split; [|lia]. f_equal; try lia.
  rewrite <- seq_shift, map_map. apply map_ext. intros i. lia.
Qed.

(** X10: along any run that keeps the sequence counter within the exactly
    counted integers (from a counter at least 0 up to at most 2^53, the
    range in which the number counter of the code increments exactly),
    whatever else is called in between, the packets handed out by
    [createPacket] carry consecutive sequence ids starting at the
    instance's counter -- so no two of them share an id -- and the counter
    ends that many higher. *)
Theorem sequence_ids_consecutive st ops :
  0 <= nextSequenceId st ->
  nextSequenceId st + Z.of_nat (length (created st ops)) <= 2 ^ 53 ->
  let ps := created st ops in
  map sequenceId ps
  = map (fun i => nextSequenceId st + Z.of_nat i) (seq 0 (length ps)) /\
  Forall (fun id => 0 <= id < 2 ^ 53) (map sequenceId ps) /\
  NoDup (map sequenceId ps) /\
  nextSequenceId (after (run st ops)) = nextSequenceId st + Z.of_nat (length ps).
Proof.
  intros Hlo Hhi. cbv zeta. destruct (created_ids ops st) as [H1 H2].
  split; [exact H1|]. split; [|split; [|exact H2]]; rewrite H1.
  - apply Forall_forall. intros id Hid. apply in_map_iff in Hid.
    destruct Hid as [i [<- Hi]]. apply in_seq in Hi. lia.
  - apply Finite.Injective_map_NoDup; [|apply seq_NoDup].
    intros i j Hij. lia.
Qed.

(** X11: acknowledging twice is acknowledging once, and acknowledging an
    id that is not pending changes nothing. *)
Theorem processAck_idempotent st k :
  processAck (processAck st k) k = processAck st k /\
  (map_has k (pendingAcks st) = false -> processAck st k = st).
Proof.
  assert (Hgone : forall m : list (Z * Pending Payload),
             map_has k (map_delete k m) = false).
  { intros m. destruct (map_has k (map_delete k m)) eqn:E2; [|reflexivity].
    apply map_has_in in E2. apply in_map_iff in E2.
    destruct E2 as [e [He Hin]]. unfold map_delete in Hin.
    apply filter_In in Hin. destruct Hin as [_ Hin].
    rewrite He, Z.eqb_refl in Hin. discriminate. }
  split.
  - unfold processAck. destruct (map_has k (pendingAcks st)) eqn:E.
    + simpl. now rewrite Hgone.
    + now rewrite E.
  - intros E. unfold processAck. now rewrite E.
Qed.

(** X12: the acknowledgment round trip.  A sender with a well-formed table
    creates a packet that requires an ack; a receiver that has not seen its
    id delivers the payload and builds an ack for that id; feeding the
    ack's id to the sender's [processAck] leaves the sender's pending
    table as it was before the packet was created. *)
Theorem ack_round_trip (sender receiver : Protocol Payload) ty pl t_send t_recv :
  wf sender ->
  set_has (nextSequenceId sender) (receivedSequences receiver) = false ->
  let p := fst (createPacket sender ty pl true t_send) in
  let sender1 := snd (createPacket sender ty pl true t_send) in
  exists ack,
    fst (processPacket receiver p t_recv) = Some (mkProcessed pl (Some ack)) /\
    ack_sequenceId ack = sequenceId p /\
    map_has (sequenceId p) (pendingAcks sender1) = true /\
    pendingAcks (processAck sender1 (ack_sequenceId ack)) = pendingAcks sender.
Proof.
  intros Hwf Hnew. cbv zeta.
  exists (createAck (nextSequenceId sender) t_recv).
  pose proof (wf_fresh sender Hwf) as Hfresh.
  assert (Hp : pendingAcks (snd (createPacket sender ty pl true t_send))
               = pendingAcks sender
                 ++ [(nextSequenceId sender,
                      mkPending (fst (createPacket sender ty pl true t_send)) t_send 0)]).
  { unfold createPacket. simpl. now rewrite map_set_absent. }
  assert (Hhas : map_has (nextSequenceId sender)
                         (pendingAcks (snd (createPacket sender ty pl true t_send)))
                 = true).
  { apply map_has_in. rewrite Hp, map_app. apply in_or_app. right. simpl. auto. }
  split; [|split; [reflexivity|split; [exact Hhas|]]].
  - unfold processPacket. simpl. rewrite Hnew. reflexivity.
  - change (ack_sequenceId (createAck (nextSequenceId sender) t_recv))
      with (nextSequenceId sender).
    revert Hp Hhas.
    generalize (snd (createPacket sender ty pl true t_send)) as sender1.
    generalize (fst (createPacket sender ty pl true t_send)) as p.
    intros p sender1 Hp Hhas.
    unfold processAck. rewrite Hhas. simpl. rewrite Hp.
    rewrite <- (app_nil_r (pendingAcks sender)) at 2.
    apply map_delete_present; [assumption|simpl; tauto].
Qed.

(** X13: once a sequence id has been acknowledged, no later sweep of any
    run returns a packet with that id or reports it lost. *)
Theorem acked_never_retransmitted st s ops :
  wf st -> s < nextSequenceId st ->
  let r := run (processAck st s) ops in
  with_seq s (toRetransmit r) = [] /\
  count_id s (lostReports r) = 0%nat /\
  map_has s (pendingAcks (after r)) = false.
Proof.
  intros Hwf Hs. cbv zeta.
  assert (Hnone : entry s (processAck st s) = None).
  { unfold entry, processAck. destruct (map_has s (pendingAcks st)) eqn:E; simpl.
    - apply map_get_delete_same.
    - apply map_get_absent. intros Hin. apply map_has_in in Hin. congruence. }
  assert (Hs' : s < nextSequenceId (processAck st s)).
  { unfold processAck. destruct (map_has _ _); simpl; lia. }
  destruct (run_absent s ops (processAck st s) (processAck_wf st s Hwf) Hs' Hnone)
    as (A1 & A2 & A3).
  rewrite entry_has, A1. repeat split; assumption.
Qed.

(** Whatever the timing and whatever else is called, the resends of id
    [s] never exceed the budget of its entry, and it is reported lost at
    most once. *)
Lemma run_within_budget s ops : forall st,
  wf st -> s < nextSequenceId st ->
  Z.of_nat (length (with_seq s (toRetransmit (run st ops))))
  <= budget (entry s st) (maxRetries st) /\
  (count_id s (lostReports (run st ops)) <= 1)%nat.
Proof.
  induction ops as [|op ops IH]; intros st Hwf Hs.
  - unfold with_seq, count_id. simpl. split; [|lia].
    unfold budget. destruct (entry s st); lia.
  - rewrite run_cons. cbn [toRetransmit lostReports].
    unfold with_seq, count_id. rewrite !filter_app, !length_app.
    fold (with_seq s (toRetransmit (step st op)))
         (with_seq s (toRetransmit (run (after (step st op)) ops)))
         (count_id s (lostReports (step st op)))
         (count_id s (lostReports (run (after (step st op)) ops))).
    destruct (step_inv st op Hwf) as (Hwf1 & _ & Hm & Hn & _).
    assert (Hs1 : s < nextSequenceId (after (step st op))) by lia.
    destruct (IH _ Hwf1 Hs1) as [IH1 IH2]. rewrite Hm in IH1.
    destruct (entry s (after (step st op))) as [pd1|] eqn:E1.
    + (* still pending after the call *)
      assert (Hstep :
        Z.of_nat (length (with_seq s (toRetransmit (step st op))))
        + budget (Some pd1) (maxRetries st) <= budget (entry s st) (maxRetries st) /\
        count_id s (lostReports (step st op)) = 0%nat /\
        (count_id s (lostReports (run (after (step st op)) ops)) <= 1)%nat).
      { split; [|split; [|exact IH2]].
        - pose proof (step_frame s st op Hwf Hs) as Hf.
          destruct op as [ty pl req now|p now|k|now]; cbn [step toRetransmit] in *.
          + rewrite Hf in E1. rewrite E1. unfold with_seq. cbn [filter length]. lia.
          + rewrite Hf in E1. rewrite E1. unfold with_seq. cbn [filter length]. lia.
          + destruct (Z.eq_dec k s) as [->|Hk].
            * exfalso. revert E1. unfold entry, processAck.
              destruct (map_has s (pendingAcks st)) eqn:E; simpl.
              -- rewrite map_get_delete_same. discriminate.
              -- intros E1. apply map_get_present in E1.
                 apply map_has_in in E1. congruence.
            * rewrite (Hf Hk) in E1. rewrite E1. unfold with_seq. cbn [filter length]. lia.
          + pose proof (sweep_step s st now Hwf) as Hsw. cbv zeta in Hsw.
            destruct (entry s st) as [pd|]; [|destruct Hsw as [Hsw _]; congruence].
            unfold verdict in Hsw.
            destruct (ackTimeout st <? now - p_timestamp pd).
            * destruct (Z.ltb_spec (retries pd) (maxRetries st)).
              -- destruct Hsw as (He & Hr & _). rewrite Hr.
                 rewrite He in E1. injection E1 as <-.
                 unfold budget, resent. cbn [retries length]. lia.
              -- destruct Hsw as (He & _). congruence.
            * destruct Hsw as (He & Hr & _). rewrite Hr.
              rewrite He in E1. injection E1 as <-.
              unfold budget. cbn [length]. lia.
        - pose proof (step_frame s st op Hwf Hs) as Hf.
          destruct op as [ty pl req now|p now|k|now]; cbn [step lostReports];
            try reflexivity.
          pose proof (sweep_step s st now Hwf) as Hsw. cbv zeta in Hsw.
          destruct (entry s st) as [pd|]; [|tauto].
          destruct (verdict now (ackTimeout st) (maxRetries st) pd); try tauto.
          destruct Hsw as (He & _). cbn [step] in E1. congruence. }
      destruct Hstep as (B1 & B2 & B3). split; lia.
    + (* gone after the call *)
      destruct (run_absent s ops _ Hwf1 Hs1 E1) as (_ & A2 & A3).
      rewrite A2, A3. cbn [length]. rewrite !Nat.add_0_r.
      destruct op as [ty pl req now|p now|k|now]; cbn [step toRetransmit lostReports].
      1-3: unfold with_seq, count_id; cbn [filter length];
        (split; [unfold budget; destruct (entry s st); lia|lia]).
      pose proof (sweep_step s st now Hwf) as Hsw. cbv zeta in Hsw.
      destruct (entry s st) as [pd|].
      * unfold verdict in Hsw.
        destruct (ackTimeout st <? now - p_timestamp pd);
          [destruct (Z.ltb_spec (retries pd) (maxRetries st))|];
          destruct Hsw as (_ & Hr & Hl); rewrite Hr, Hl;
          unfold budget; cbn [length]; split; lia.
      * destruct Hsw as (_ & Hr & Hl). rewrite Hr, Hl.
        unfold budget. cbn [length]. split; lia.
Qed.

(** X14: a packet created with [requiresAck] is returned by the sweeps of
    a run at most [maxRetries] times and reported lost at most once,
    whatever the sweep times and whatever other calls (acknowledgments
    included) the run makes. *)
Theorem retransmissions_capped st0 ty pl t0 ops :
  wf st0 ->
  let p := fst (createPacket st0 ty pl true t0) in
  let r := run (snd (createPacket st0 ty pl true t0)) ops in
  Z.of_nat (length (with_seq (sequenceId p) (toRetransmit r)))
  <= Z.max 0 (maxRetries st0) /\
  (count_id (sequenceId p) (lostReports r) <= 1)%nat.
Proof.
  intros Hwf. cbv zeta.
  pose proof (createPacket_wf st0 ty pl true t0 Hwf) as Hwf1.
  assert (Hs : nextSequenceId st0
               < nextSequenceId (snd (createPacket st0 ty pl true t0)))
    by (simpl; lia).
  destruct (run_within_budget (nextSequenceId st0) ops _ Hwf1 Hs) as [B1 B2].
  rewrite createPacket_entry in B1. simpl in B1. rewrite Z.sub_0_r in B1.
  split; assumption.
Qed.

End Ids.

(** *** The seen-set *)

Lemma insert_ascending_perm k l : Permutation (insert_ascending k l) (k :: l).
Proof.
  induction l as [|h t IH]; simpl; [reflexivity|].
  destruct (k <=? h); [reflexivity|].
  rewrite IH. apply perm_swap.
Qed.

Lemma sort_ascending_perm l : Permutation (sort_ascending l) l.
Proof.
  induction l as [|h t IH]; simpl; [reflexivity|].
  rewrite insert_ascending_perm. now constructor.
Qed.

Lemma set_delete_NoDup k s : NoDup s -> NoDup (set_delete k s).
Proof. apply NoDup_filter. Qed.

Lemma set_delete_length k s :
  NoDup s -> In k s -> S (length (set_delete k s)) = length s.
Proof.
  induction s as [|h t IH]; simpl; intros Hnd Hin; [contradiction|].
  inversion Hnd as [|? ? Hnin Hnd']; subst.
  destruct (Z.eqb_spec h k) as [->|Hne]; simpl.
  - f_equal. clear IH Hin Hnd Hnd'. induction t as [|a t IH]; simpl; [reflexivity|].
    destruct (Z.eqb_spec a k) as [->|Ha]; simpl.
    + exfalso. apply Hnin. now left.
    + f_equal. apply IH. intros H. apply Hnin. now right.
  - f_equal. apply IH; [assumption|]. destruct Hin; [congruence|assumption].
Qed.

Lemma set_delete_in k s x : In x (set_delete k s) <-> In x s /\ x <> k.
Proof.
  unfold set_delete. rewrite filter_In, negb_true_iff, Z.eqb_neq. tauto.
Qed.

Lemma delete_all_NoDup ks : forall s,
  NoDup s -> NoDup (fold_left (fun acc k => set_delete k acc) ks s).
Proof.
  induction ks as [|k ks IH]; intros s Hs; simpl; [assumption|].
  apply IH. now apply set_delete_NoDup.
Qed.

Lemma delete_all_length ks : forall s,
  NoDup ks -> incl ks s -> NoDup s ->
  (length (fold_left (fun acc k => set_delete k acc) ks s) + length ks
   = length s)%nat.
Proof.
  induction ks as [|k ks IH]; intros s Hks Hincl Hs; simpl; [lia|].
  inversion Hks as [|? ? Hnin Hks']; subst.
  rewrite <- (set_delete_length k s Hs (Hincl k (or_introl eq_refl))).
  rewrite <- (IH (set_delete k s)); [lia|assumption| |now apply set_delete_NoDup].
  intros x Hx. apply set_delete_in. split.
  - apply Hincl. now right.
  - intros ->. contradiction.
Qed.

Lemma NoDup_firstn {A} n (l : list A) : NoDup l -> NoDup (firstn n l).
Proof.
  intros H. rewrite <- (firstn_skipn n l) in H.
  eapply NoDup_app_remove_r; eauto.
Qed.

(** Trimming a duplicate-free set of more than 1000 ids removes exactly
    500 of them. *)
Lemma trim_received_length s :
  NoDup s -> (1000 < length s)%nat ->
  (length (trim_received s) + 500 = length s)%nat /\ NoDup (trim_received s).
Proof.
  intros Hs Hlen. unfold trim_received.
  destruct (Nat.ltb_spec 1000 (length s)) as [_|]; [|lia].
  pose proof (sort_ascending_perm s) as Hperm.
  assert (Hks : NoDup (firstn 500 (sort_ascending s))).
  { apply NoDup_firstn. eapply Permutation_NoDup; [symmetry; exact Hperm|exact Hs]. }
  assert (Hincl : incl (firstn 500 (sort_ascending s)) s).
  { intros x Hx. eapply Permutation_in; [exact Hperm|].
    rewrite <- (firstn_skipn 500 (sort_ascending s)). apply in_or_app. now left. }
  split; [|now apply delete_all_NoDup].
  rewrite <- (delete_all_length _ s Hks Hincl Hs).
  rewrite length_firstn, (Permutation_length Hperm). lia.
Qed.

Section Seen.
Context {Payload : Type}.
Implicit Types (st : Protocol Payload) (ops : list (Op Payload))
         (p : Packet Payload).

Lemma set_has_in k s : set_has k s = true <-> In k s.
Proof.
  unfold set_has. rewrite existsb_exists. split.
  - intros [x [Hin Hx]]. apply Z.eqb_eq in Hx. now subst.
  - intros Hin. exists k. split; [assumption|apply Z.eqb_refl].
Qed.

Lemma processPacket_seen_ok st p now :
  seen_ok st -> seen_ok (snd (processPacket st p now)).
Proof.
  intros [Hnd Hlen]. unfold processPacket.
  destruct (set_has (sequenceId p) (receivedSequences st)) eqn:Hseen;
    [split; assumption|].
  assert (Hadd : NoDup (set_add (sequenceId p) (receivedSequences st)) /\
                 length (set_add (sequenceId p) (receivedSequences st))
                 = S (length (receivedSequences st))).
  { unfold set_add. rewrite Hseen. split.
    - apply NoDup_app; [assumption|repeat constructor; simpl; tauto|].
      intros a Ha [<-|[]]. apply set_has_in in Ha. congruence.
    - rewrite length_app. simpl. lia. }
  destruct Hadd as [Hnd1 Hlen1].
  assert (Hok : NoDup (trim_received (set_add (sequenceId p) (receivedSequences st))) /\
                (length (trim_received (set_add (sequenceId p) (receivedSequences st)))
                 <= 1000)%nat).
  { destruct (Nat.ltb_spec 1000 (length (set_add (sequenceId p) (receivedSequences st))))
      as [Hbig|Hsmall].
    - destruct (trim_received_length _ Hnd1 Hbig). split; [assumption|lia].
    - unfold trim_received.
      destruct (Nat.ltb_spec 1000 (length (set_add (sequenceId p) (receivedSequences st))));
        [lia|]. split; assumption. }
  destruct (requiresAck p); exact Hok.
Qed.

Lemma step_seen_ok st op : seen_ok st -> seen_ok (after (step st op)).
Proof.
  intros Hok. destruct op as [ty pl req now|p now|k|now]; simpl.
  - unfold createPacket. destruct req; exact Hok.
  - now apply processPacket_seen_ok.
  - unfold processAck. destruct (map_has _ _); exact Hok.
  - unfold getRetransmissions, seen_ok.
    destruct (sweep_entries_frame now (pendingAcks st) (mkSweep [] [] st))
      as (_ & Hr & _).
    rewrite Hr. exact Hok.
Qed.

(** X15: the seen-set stays duplicate-free and never holds more than 1000
    ids, whatever is received and whatever else is called. *)
Theorem seen_set_bounded st ops :
  NoDup (receivedSequences st) ->
  (length (receivedSequences st) <= 1000)%nat ->
  NoDup (receivedSequences (after (run st ops))) /\
  (length (receivedSequences (after (run st ops))) <= 1000)%nat.
Proof.
  intros Hnd Hlen. assert (Hok : seen_ok st) by (split; assumption).
  clear Hnd Hlen. revert st Hok.
  induction ops as [|op ops IH]; intros st Hok; simpl; [exact Hok|].
  apply IH. now apply step_seen_ok.
Qed.

Lemma sort_ascending_min k s :
  Forall (fun e => k < e) s ->
  sort_ascending (s ++ [k]) = k :: sort_ascending s.
Proof.
  induction 1 as [|h t Hh _ IH]; simpl; [reflexivity|].
  rewrite IH. simpl. destruct (Z.leb_spec h k); [lia|reflexivity].
Qed.

Lemma delete_all_absent k ks : forall s,
  set_has k s = false ->
  set_has k (fold_left (fun acc x => set_delete x acc) ks s) = false.
Proof.
  induction ks as [|x ks IH]; intros s Hs; simpl; [assumption|].
  apply IH. destruct (set_has k (set_delete x s)) eqn:E; [|reflexivity].
  apply set_has_in, set_delete_in in E. destruct E as [E _].
  apply set_has_in in E. congruence.
Qed.

(** X16: the trimming can forget the packet that has just arrived.  When
    the seen-set holds 1000 ids, all larger than the id of an arriving
    packet, that id is among the 500 smallest and is deleted at once: the
    packet is delivered, its id is not remembered, and its next arrival is
    delivered again instead of being dropped as a duplicate. *)
Theorem old_id_forgotten_at_cap st p now now' :
  length (receivedSequences st) = 1000%nat ->
  Forall (fun e => sequenceId p < e) (receivedSequences st) ->
  let st1 := snd (processPacket st p now) in
  fst (processPacket st p now) <> None /\
  set_has (sequenceId p) (receivedSequences st1) = false /\
  fst (processPacket st1 p now') <> None.
Proof.
  intros Hlen Hall. cbv zeta.
  assert (Hnew : set_has (sequenceId p) (receivedSequences st) = false).
  { destruct (set_has (sequenceId p) (receivedSequences st)) eqn:E; [|reflexivity].
    apply set_has_in in E. rewrite Forall_forall in Hall.
    specialize (Hall _ E). lia. }
  assert (Hgone : set_has (sequenceId p)
                    (receivedSequences (snd (processPacket st p now))) = false).
  { unfold processPacket. rewrite Hnew.
    assert (Htrim : set_has (sequenceId p)
              (trim_received (set_add (sequenceId p) (receivedSequences st))) = false).
    { unfold set_add. rewrite Hnew. unfold trim_received.
      rewrite length_app, Hlen. simpl Nat.ltb. cbv iota.
      rewrite (sort_ascending_min _ _ Hall).
      change 500%nat with (S 499). rewrite firstn_cons. simpl fold_left.
      apply delete_all_absent.
      destruct (set_has (sequenceId p)
                  (set_delete (sequenceId p) (receivedSequences st ++ [sequenceId p])))
               eqn:E; [|reflexivity].
      apply set_has_in, set_delete_in in E. tauto. }
    destruct (requiresAck p); exact Htrim. }
  split; [|split; [exact Hgone|]].
  - unfold processPacket. rewrite Hnew. destruct (requiresAck p); discriminate.
  - unfold processPacket at 1. rewrite Hgone. destruct (requiresAck p); discriminate.
Qed.

End Seen.

(** *** Concrete runs *)

(** A sender with two input packets pending, created at times 0 and 50. *)
Lemma two_pending_wf :
  wf (snd (createPacket (snd (createPacket (@new unit) CLIENT_INPUT tt true 0))
                        CLIENT_INPUT tt true 50)).
Proof. apply createPacket_wf, createPacket_wf, wf_new. Qed.

Lemma sequence_ids_consecutive_witness :
  let ops := [OpCreate CLIENT_HELLO tt false 0; OpSweep 10;
              OpCreate CLIENT_INPUT tt true 20; OpAck 1;
              OpProcess (mkPacket SERVER_SNAPSHOT 0 tt false 30) 40;
              OpCreate CLIENT_INPUT tt true 50] in
  let ps := created (@new unit) ops in
  0 <= nextSequenceId (@new unit) /\
  nextSequenceId (@new unit) + Z.of_nat (length ps) <= 2 ^ 53 /\
  map sequenceId ps = [0; 1; 2] /\
  Forall (fun id => 0 <= id < 2 ^ 53) (map sequenceId ps) /\
  NoDup (map sequenceId ps) /\
  nextSequenceId (after (run (@new unit) ops)) = 3.
Proof.
  intros ops ps.
  assert (H1 : 0 <= nextSequenceId (@new unit)) by (simpl; lia).
  assert (H2 : nextSequenceId (@new unit) + Z.of_nat (length ps) <= 2 ^ 53)
    by (vm_compute; discriminate).
  split; [exact H1|]. split; [exact H2|].
  destruct (sequence_ids_consecutive new ops H1 H2) as (W1 & W2 & W3 & W4).
  split; [exact W1|]. split; [exact W2|]. split; [exact W3|]. exact W4.
Defined.

Lemma sweep_before_timeout_is_noop_witness :
  let st := snd (createPacket (snd (createPacket (@new unit) CLIENT_INPUT tt true 0))
                              CLIENT_INPUT tt true 50) in
  Forall (fun e => 90 - p_timestamp (snd e) <= ackTimeout st) (pendingAcks st) /\
  getRetransmissions st 90 = mkSweep [] [] st.
Proof.
  intros st.
  assert (H : Forall (fun e => 90 - p_timestamp (snd e) <= ackTimeout st)
                     (pendingAcks st)) by (repeat constructor; simpl; lia).
  split; [exact H|]. exact (sweep_before_timeout_is_noop st 90 H).
Defined.

Lemma sweep_selects_overdue_witness :
  let st := snd (createPacket (snd (createPacket (@new unit) CLIENT_INPUT tt true 0))
                              CLIENT_INPUT tt true 50) in
  let r := getRetransmissions st 120 in
  NoDup (map fst (pendingAcks st)) /\
  map sequenceId (toRetransmit r) = [0] /\
  lostReports r = [] /\
  map fst (pendingAcks (after r)) = [0; 1].
Proof.
  intros st r.
  assert (H : NoDup (map fst (pendingAcks st))) by apply two_pending_wf.
  split; [exact H|].
  destruct (sweep_selects_overdue st 120 H) as (W1 & W2 & W3).
  fold r in W1, W2, W3. rewrite W1, W2, W3. repeat split.
Defined.

Lemma sweep_conserves_entries_witness :
  let st := snd (createPacket (snd (createPacket (@new unit) CLIENT_INPUT tt true 0))
                              CLIENT_INPUT tt true 50) in
  let st3 := after (getRetransmissions
                      (after (getRetransmissions
                                (after (getRetransmissions st 120)) 260)) 400) in
  let r := getRetransmissions st3 520 in
  NoDup (map fst (pendingAcks st3)) /\
  (packetsLost st3, length (pendingAcks st3)) = (0, 2%nat) /\
  (packetsLost (after r), length (pendingAcks (after r))) = (1, 1%nat) /\
  packetsLost (after r) + Z.of_nat (length (pendingAcks (after r)))
  = packetsLost st3 + Z.of_nat (length (pendingAcks st3)) /\
  (length (toRetransmit r) <= length (pendingAcks (after r)))%nat.
Proof.
  intros st st3 r.
  assert (H : NoDup (map fst (pendingAcks st3))).
  { repeat apply getRetransmissions_wf. apply two_pending_wf. }
  split; [exact H|]. split; [reflexivity|]. split; [reflexivity|].
  exact (sweep_conserves_entries st3 520 H).
Defined.

Lemma ack_round_trip_witness :
  let sender := @new unit in
  let receiver := @new unit in
  wf sender /\
  set_has (nextSequenceId sender) (receivedSequences receiver) = false /\
  exists ack,
    fst (processPacket receiver (fst (createPacket sender CLIENT_INPUT tt true 0)) 20)
    = Some (mkProcessed tt (Some ack)) /\
    ack_sequenceId ack = sequenceId (fst (createPacket sender CLIENT_INPUT tt true 0)) /\
    map_has (sequenceId (fst (createPacket sender CLIENT_INPUT tt true 0)))
            (pendingAcks (snd (createPacket sender CLIENT_INPUT tt true 0))) = true /\
    pendingAcks (processAck (snd (createPacket sender CLIENT_INPUT tt true 0))
                            (ack_sequenceId ack))
    = pendingAcks sender.
Proof.
  intros sender receiver. split; [apply wf_new|]. split; [reflexivity|].
  exact (ack_round_trip sender receiver CLIENT_INPUT tt 0 20 wf_new eq_refl).
Defined.

Lemma acked_never_retransmitted_witness :
  let st := snd (createPacket (snd (createPacket (@new unit) CLIENT_INPUT tt true 0))
                              CLIENT_INPUT tt true 50) in
  let ops := [OpSweep 120; OpSweep 260; OpCreate CLIENT_INPUT tt true 300;
              OpSweep 400; OpSweep 520] in
  let r := run (processAck st 0) ops in
  wf st /\ 0 < nextSequenceId st /\
  map sequenceId (toRetransmit r) = [1; 1; 1; 2] /\
  with_seq 0 (toRetransmit r) = [] /\
  count_id 0 (lostReports r) = 0%nat /\
  map_has 0 (pendingAcks (after r)) = false.
Proof.
  intros st ops r.
  assert (Hs : 0 < nextSequenceId st) by (simpl; lia).
  split; [apply two_pending_wf|]. split; [exact Hs|]. split; [reflexivity|].
  exact (acked_never_retransmitted st 0 ops two_pending_wf Hs).
Defined.

Lemma retransmissions_capped_witness :
  let ops := [OpSweep 120; OpSweep 121; OpSweep 260; OpAck 5; OpSweep 400;
              OpSweep 401; OpSweep 520; OpSweep 640; OpSweep 760] in
  let p := fst (createPacket (@new unit) CLIENT_INPUT tt true 0) in
  let r := run (snd (createPacket (@new unit) CLIENT_INPUT tt true 0)) ops in
  wf (@new unit) /\
  length (with_seq (sequenceId p) (toRetransmit r)) = 3%nat /\
  Z.of_nat (length (with_seq (sequenceId p) (toRetransmit r)))
  <= Z.max 0 (maxRetries (@new unit)) /\
  (count_id (sequenceId p) (lostReports r) <= 1)%nat.
Proof.
  intros ops p r. split; [apply wf_new|]. split; [reflexivity|].
  exact (retransmissions_capped new CLIENT_INPUT tt 0 ops wf_new).
Defined.

Lemma seen_set_bounded_witness :
  let ops := [OpProcess (mkPacket SERVER_SNAPSHOT 4 tt false 0) 10;
              OpProcess (mkPacket SERVER_SNAPSHOT 2 tt false 0) 20;
              OpProcess (mkPacket SERVER_SNAPSHOT 4 tt false 0) 30] in
  NoDup (receivedSequences (@new unit)) /\
  (length (receivedSequences (@new unit)) <= 1000)%nat /\
  receivedSequences (after (run (@new unit) ops)) = [4; 2] /\
  NoDup (receivedSequences (after (run (@new unit) ops))) /\
  (length (receivedSequences (after (run (@new unit) ops))) <= 1000)%nat.
Proof.
  intros ops.
  assert (H1 : NoDup (receivedSequences (@new unit))) by constructor.
  assert (H2 : (length (receivedSequences (@new unit)) <= 1000)%nat) by (simpl; lia).
  split; [exact H1|]. split; [exact H2|]. split; [reflexivity|].
  exact (seen_set_bounded new ops H1 H2).
Defined.

(** A receiver that has processed the packets with ids 1 to 1000 gets the
    delayed packet 0. *)
Lemma old_id_forgotten_at_cap_witness :
  let arrivals := map (fun i => OpProcess (mkPacket CLIENT_INPUT (Z.of_nat i) tt true 0) 5)
                      (seq 1 1000) in
  let st := after (run (@new unit) arrivals) in
  let p := mkPacket CLIENT_INPUT 0 tt true 0 in
  length (receivedSequences st) = 1000%nat /\
  Forall (fun e => sequenceId p < e) (receivedSequences st) /\
  fst (processPacket st p 7) <> None /\
  set_has (sequenceId p) (receivedSequences (snd (processPacket st p 7))) = false /\
  fst (processPacket (snd (processPacket st p 7)) p 9) <> None.
Proof.
  intros arrivals st p.
  assert (H1 : length (receivedSequences st) = 1000%nat) by (vm_compute; reflexivity).
  assert (H2 : Forall (fun e => sequenceId p < e) (receivedSequences st)).
  { apply Forall_forall. intros e He. apply Z.ltb_lt. revert e He.
    apply forallb_forall. vm_compute. reflexivity. }
  split; [exact H1|]. split; [exact H2|].
  exact (old_id_forgotten_at_cap st p 7 9 H1 H2).
Defined.

End NetworkProtocolRuns.

(** ** TimeSync along runs *)

Module TimeSyncRuns.

Import JS TimeSync TimeSyncFacts.
Open Scope float_scope.

(** *** Construction *)

(** X17: whatever the configuration -- tick rate missing, zero or NaN
    included -- the constructed instance has a tick rate that is neither
    zero nor NaN, so [tickDuration = 1000 / tickRate] never divides by
    zero; a usable configured rate is kept and any other gives 60. *)
Theorem tickRate_never_zero (config : Config) (now : float) :
  let s := new config now in
  is_zero (tickRate s) = false /\ is_nan (tickRate s) = false /\
  tickDuration s = 1000 / tickRate s /\
  (tickRate s = 60 \/ cfg_tickRate config = Some (tickRate s)).
Proof.
  cbv zeta. unfold new. simpl. unfold or_default.
  destruct (cfg_tickRate config) as [f|]; [|repeat split; now left].
  destruct (is_zero f) eqn:Ez; simpl; [repeat split; now left|].
  destruct (is_nan f) eqn:En; simpl; [repeat split; now left|].
  repeat split; try assumption. now right.
Qed.

(** *** Requests *)

Lemma step_syncCount s op :
  syncCount (step s op)
  = (syncCount s + if is_request op then 1 else 0)%Z.
Proof.
  destruct op as [now|r t now]; simpl; [reflexivity|].
  rewrite processSyncResponse_syncCount. lia.
Qed.

Lemma requests_made_ids ops : forall s,
  map req_sequenceId (requests_made s ops)
  = map (fun i => (syncCount s + Z.of_nat i)%Z) (seq 0 (requests_created ops)) /\
  map req_clientSendTime (requests_made s ops) = request_times ops.
Proof.
  unfold requests_created.
  induction ops as [|op ops IH]; intros s; simpl; [split; reflexivity|].
  destruct (IH (step s op)) as [IH1 IH2].
  rewrite !map_app, IH1, IH2, step_syncCount. clear IH IH1 IH2.
  destruct op as [now|r t now]; simpl.
  - split; [|reflexivity]. f_equal; [lia|].
    rewrite <- seq_shift, map_map. apply map_ext. intros i. lia.
  - split; [|reflexivity]. apply map_ext. intros i. lia.
Qed.

(** X18: along any run of a new instance, whatever responses are processed
    in between, the requests handed out by [createSyncRequest] carry the
    sequence ids 0, 1, 2, ... in order, each stamped with the local time of
    its call. *)
Theorem request_ids_consecutive (config : Config) (t0 : float) (ops : list Op) :
  map req_sequenceId (requests_made (new config t0) ops)
  = map Z.of_nat (seq 0 (requests_created ops)) /\
  map req_clientSendTime (requests_made (new config t0) ops) = request_times ops.
Proof.
  destruct (requests_made_ids ops (new config t0)) as [H1 H2].
  split; [|exact H2]. rewrite H1. reflexivity.
Qed.

(** *** The RTT window *)

Lemma updateClockDrift_frame s o now :
  rttHistory (updateClockDrift s o now) = rttHistory s /\
  rttSamples (updateClockDrift s o now) = rttSamples s /\
  serverTick (updateClockDrift s o now) = serverTick s /\
  lastSyncTime (updateClockDrift s o now) = lastSyncTime s /\
  tickRate (updateClockDrift s o now) = tickRate s /\
  tickDuration (updateClockDrift s o now) = tickDuration s.
Proof. unfold updateClockDrift. destruct (gt _ _); repeat split. Qed.

Lemma updateClockOffset_frame s o :
  rttHistory (updateClockOffset s o) = rttHistory s /\
  rttSamples (updateClockOffset s o) = rttSamples s /\
  tickRate (updateClockOffset s o) = tickRate s /\
  tickDuration (updateClockOffset s o) = tickDuration s /\
  clockDrift (updateClockOffset s o) = clockDrift s /\
  lastDriftCheckTime (updateClockOffset s o) = lastDriftCheckTime s /\
  lastDriftOffset (updateClockOffset s o) = lastDriftOffset s.
Proof. unfold updateClockOffset. destruct (is_zero_number _); repeat split. Qed.

Lemma processSyncResponse_rttHistory s r t now :
  rttSamples (processSyncResponse s r t now) = rttSamples s /\
  rttHistory (processSyncResponse s r t now)
  = if gt (length_number (rttHistory s ++ [t - clientSendTime r])) (rttSamples s)
    then tl (rttHistory s ++ [t - clientSendTime r])
    else rttHistory s ++ [t - clientSendTime r].
Proof.
  unfold processSyncResponse.
  destruct (updateClockDrift_frame
              (mkSync (tickRate (updateClockOffset (updateRttStats s (t - clientSendTime r)) (rawOffset r t)))
                      (tickDuration (updateClockOffset (updateRttStats s (t - clientSendTime r)) (rawOffset r t)))
                      (syncInterval (updateClockOffset (updateRttStats s (t - clientSendTime r)) (rawOffset r t)))
                      (rttSamples (updateClockOffset (updateRttStats s (t - clientSendTime r)) (rawOffset r t)))
                      (res_serverTick r)
                      (clockOffset (updateClockOffset (updateRttStats s (t - clientSendTime r)) (rawOffset r t)))
                      (rttHistory (updateClockOffset (updateRttStats s (t - clientSendTime r)) (rawOffset r t)))
                      (smoothedRtt (updateClockOffset (updateRttStats s (t - clientSendTime r)) (rawOffset r t)))
                      (clockDrift (updateClockOffset (updateRttStats s (t - clientSendTime r)) (rawOffset r t)))
                      t
                      (lastDriftCheckTime (updateClockOffset (updateRttStats s (t - clientSendTime r)) (rawOffset r t)))
                      (lastDriftOffset (updateClockOffset (updateRttStats s (t - clientSendTime r)) (rawOffset r t)))
                      (syncCount (updateClockOffset (updateRttStats s (t - clientSendTime r)) (rawOffset r t)))
                      (jitter (updateClockOffset (updateRttStats s (t - clientSendTime r)) (rawOffset r t))))
              (rawOffset r t) now) as (H1 & H2 & _).
  cbv zeta. rewrite H1, H2. simpl.
  destruct (updateClockOffset_frame (updateRttStats s (t - clientSendTime r)) (rawOffset r t))
    as (F1 & F2 & _).
  rewrite F1, F2. split; reflexivity.
Qed.

(** Up to eleven entries, the array length compares with 10 as the
    number it is. *)
Lemma length_number_gt_10 {A} (l : list A) :
  (length l <= 11)%nat ->
  gt (length_number l) 10 = (10 <? length l)%nat.
Proof.
  unfold length_number. generalize (length l) as n. intros n Hn.
  do 12 (destruct n as [|n]; [reflexivity|]). lia.
Qed.

Lemma window_step (h : list float) (rtt : float) (rest : list float) :
  (length h <= 10)%nat ->
  let h' := if (10 <? length (h ++ [rtt]))%nat then tl (h ++ [rtt]) else h ++ [rtt] in
  (length h' <= 10)%nat /\
  skipn (length (h' ++ rest) - 10) (h' ++ rest)
  = skipn (length (h ++ rtt :: rest) - 10) (h ++ rtt :: rest).
Proof.
  intros Hlen. cbv zeta. rewrite length_app. simpl length.
  destruct (Nat.ltb_spec 10 (length h + 1)) as [Hbig|Hsmall].
  - destruct h as [|a h0]; [simpl in *; lia|].
    assert (H9 : length h0 = 9%nat) by (simpl in *; lia).
    cbn [app tl].
    split; [rewrite length_app; simpl; lia|].
    rewrite <- app_assoc. cbn [app].
    replace (length (h0 ++ rtt :: rest) - 10)%nat with (length rest)
      by (rewrite length_app; simpl; lia).
    replace (length (a :: h0 ++ rtt :: rest) - 10)%nat with (S (length rest))
      by (simpl; rewrite length_app; simpl; lia).
    reflexivity.
  - split; [rewrite length_app; simpl; lia|].
    rewrite <- app_assoc. reflexivity.
Qed.

Lemma run_window ops : forall s,
  rttSamples s = 10 -> (length (rttHistory s) <= 10)%nat ->
  rttHistory (run s ops)
  = skipn (length (rttHistory s ++ sample_rtts ops) - 10)
          (rttHistory s ++ sample_rtts ops).
Proof.
  unfold run.
  induction ops as [|op ops IH]; intros s Hcfg Hlen; simpl.
  - rewrite app_nil_r. replace (length (rttHistory s) - 10)%nat with 0%nat by lia.
    reflexivity.
  - destruct op as [now|r t now]; cbn [step sample_rtts].
    + exact (IH (snd (createSyncRequest s now)) Hcfg Hlen).
    + destruct (processSyncResponse_rttHistory s r t now) as [Hs Hh].
      rewrite Hcfg in Hh.
      rewrite length_number_gt_10 in Hh by (rewrite length_app; simpl; lia).
      destruct (window_step (rttHistory s) (t - clientSendTime r)
                            (sample_rtts ops) Hlen) as [W1 W2].
      cbv zeta in W1, W2. rewrite <- Hh in W1, W2.
      rewrite IH; [exact W2|congruence|exact W1].
Qed.

(** X19: with the default [rttSamples] of 10, after any run of a new
    instance the RTT history holds exactly the last [min 10 n] of the [n]
    round-trip times measured so far, oldest first. *)
Theorem rtt_history_is_sliding_window (config : Config) (t0 : float) (ops : list Op) :
  cfg_rttSamples config = None ->
  let s := run (new config t0) ops in
  rttHistory s = skipn (length (sample_rtts ops) - 10) (sample_rtts ops) /\
  length (rttHistory s) = Nat.min 10 (samples_collected ops).
Proof.
  intros Hcfg. cbv zeta.
  assert (Hw : rttHistory (run (new config t0) ops)
               = skipn (length (sample_rtts ops) - 10) (sample_rtts ops)).
  { apply (run_window ops (new config t0)).
    - simpl. now rewrite Hcfg.
    - simpl. lia. }
  split; [exact Hw|]. rewrite Hw, length_skipn.
  assert (Hn : length (sample_rtts ops) = samples_collected ops).
  { unfold samples_collected. clear Hw Hcfg.
    induction ops as [|[now|r t now] ops IH]; simpl; auto. }
  rewrite Hn. lia.
Qed.

Lemma rtt_history_is_sliding_window_witness :
  let config := mkConfig (Some 60) None None in
  let ops := map (fun t => OpResponse (mkResponse 1000 1000 1000 0 0) t t)
                 [1001; 1002; 1003; 1004; 1005; 1006;
                  1007; 1008; 1009; 1010; 1011; 1012] in
  cfg_rttSamples config = None /\
  rttHistory (run (new config 0) ops) = [3; 4; 5; 6; 7; 8; 9; 10; 11; 12] /\
  rttHistory (run (new config 0) ops)
  = skipn (length (sample_rtts ops) - 10) (sample_rtts ops) /\
  length (rttHistory (run (new config 0) ops)) = Nat.min 10 (samples_collected ops).
Proof.
  intros config ops. split; [reflexivity|]. split; [reflexivity|].
  exact (rtt_history_is_sliding_window config 0 ops eq_refl).
Defined.

(** *** Offset and drift *)

(** X20: the offset after a response is decided by the offset before it:
    if that is exactly zero (as on a new instance) the raw sample is
    taken as it is; otherwise the offset moves toward the sample by half
    the difference when the difference exceeds 50 ms and by a tenth of it
    otherwise. *)
Theorem clock_offset_rule (s : Sync) (r : Response) (t now : float) :
  clockOffset (processSyncResponse s r t now)
  = if is_zero_number (clockOffset s) then rawOffset r t
    else clockOffset s
         + (rawOffset r t - clockOffset s)
           * (if gt (Math_abs (rawOffset r t - clockOffset s)) 50 then 0.5 else 0.1).
Proof.
  rewrite processSyncResponse_clockOffset. unfold updateClockOffset.
  destruct (is_zero_number (clockOffset s)); reflexivity.
Qed.

(** X21: the drift estimate is gated: a response processed no more than
    ten seconds after the last drift check leaves [clockDrift],
    [lastDriftCheckTime] and [lastDriftOffset] untouched; one processed
    later sets the drift to the offset change per second and restarts the
    window. *)
Theorem drift_recomputed_after_ten_seconds (s : Sync) (r : Response) (t now : float) :
  let s' := processSyncResponse s r t now in
  let elapsed := (now - lastDriftCheckTime s) / 1000 in
  (gt elapsed 10 = false ->
   clockDrift s' = clockDrift s /\
   lastDriftCheckTime s' = lastDriftCheckTime s /\
   lastDriftOffset s' = lastDriftOffset s) /\
  (gt elapsed 10 = true ->
   clockDrift s' = (rawOffset r t - lastDriftOffset s) / elapsed /\
   lastDriftCheckTime s' = now /\
   lastDriftOffset s' = rawOffset r t).
Proof.
  cbv zeta. unfold processSyncResponse.
  destruct (updateClockOffset_frame (updateRttStats s (t - clientSendTime r)) (rawOffset r t))
    as (_ & _ & _ & _ & F1 & F2 & F3).
  simpl in F1, F2, F3.
  unfold updateClockDrift. cbn [lastDriftCheckTime lastDriftOffset clockDrift].
  rewrite F2, F3.
  split; intros Hgt; rewrite Hgt; cbn [lastDriftCheckTime lastDriftOffset clockDrift];
    rewrite ?F1, ?F2, ?F3; repeat split.
Qed.

(** Every response processed records the server tick it carries and
    the local receive time, and leaves the configuration (tick rate, tick
    duration, sample window) and the request counter alone. *)
Lemma response_is_recorded (s : Sync) (r : Response) (t now : float) :
  let s' := processSyncResponse s r t now in
  serverTick s' = res_serverTick r /\
  lastSyncTime s' = t /\
  tickRate s' = tickRate s /\
  tickDuration s' = tickDuration s /\
  rttSamples s' = rttSamples s /\
  syncCount s' = syncCount s.
Proof.
  cbv zeta.
  destruct (processSyncResponse_rttHistory s r t now) as [Hs _].
  rewrite Hs, processSyncResponse_syncCount.
  unfold processSyncResponse.
  match goal with |- context [updateClockDrift ?a ?b ?c] =>
    destruct (updateClockDrift_frame a b c) as (_ & _ & D1 & D2 & D3 & D4) end.
  rewrite D1, D2, D3, D4. simpl.
  destruct (updateClockOffset_frame (updateRttStats s (t - clientSendTime r)) (rawOffset r t))
    as (_ & _ & F1 & F2 & _).
  rewrite F1, F2. repeat split.
Qed.

(** *** Reliability *)



End TimeSyncRuns.
